(** * Catalogo Mayorista: the filter / search / sort pipeline of the catalog page

    A shallow embedding of [components/catalog-page.tsx]: the price parser
    [parsePriceString], the stock normaliser [normalizeProducts], the memoised
    derivations [filteredProducts], [categories] and [availableBrands], and the
    filter-state transitions of the page's event handlers.

    Conventions of the embedding.
    - A JavaScript string is a sequence of code units. The strings of the
      embedding are those whose code units are all below 256 (U+0000 to
      U+00FF, which holds the Spanish alphabet): a character of a [string]
      is one code unit, read through [N_of_ascii], not a byte of an
      encoding. On these strings white space ([trim], [\s], [parseInt]) and
      [toLowerCase] are the ones of the language: white space is U+0009 to
      U+000D, U+0020 and U+00A0, and the upper-case letters are A to Z and
      U+00C0 to U+00DE without U+00D7.
    - A JavaScript number is [NaN], an infinity or a finite double; the
      finite numbers of the embedding are the doubles that are integers.
      Arithmetic rounds as the language does: an integer result that is not
      a double becomes the nearest double, ties to even, or an infinity
      (see [roundInteger]). Positive and negative zero are one value.
    - An optional object field is an [option]: [None] is [undefined]. *)

From Stdlib Require Import ZArith List Bool Ascii String Lia.
From Stdlib Require Import Permutation Sorted.
From Stdlib Require Import Numbers.DecimalString Numbers.DecimalPos Numbers.DecimalN.
Import ListNotations.

Local Open Scope string_scope.
Local Open Scope list_scope.
Local Open Scope Z_scope.

(* ================================================================== *)
(** ** The JavaScript values and operations the page relies on *)

Module Js.

(** Numbers. *)
Inductive number : Type :=
| NaN
| Inf (negative : bool)
| Fin (z : Z).

Definition isNaN (n : number) : bool :=
  match n with NaN => true | _ => false end.

(** [a > b]; every comparison with [NaN] is false. *)
Definition gtb (a b : number) : bool :=
  match a, b with
  | NaN, _ | _, NaN => false
  | Inf na, Inf nb => negb na && nb
  | Inf na, Fin _ => negb na
  | Fin _, Inf nb => nb
  | Fin x, Fin y => y <? x
  end.

(** The number for an integer [z]: [z] itself when it has at most 53
    significant bits, otherwise the nearest integer with 53 significant
    bits, the even one of two equally near, and an infinity when that
    reaches 2^1024. This is the rounding of every operation below and of
    the conversion of a numeral. *)
Definition roundInteger (z : Z) : number :=
  let n := Z.abs z in
  if n <? 2 ^ 53 then Fin z
  else
    let e := Z.log2 n - 52 in
    let q := n / 2 ^ e in
    let r := n mod 2 ^ e in
    let half := 2 ^ (e - 1) in
    let q' := if (half <? r) || ((r =? half) && Z.odd q) then q + 1 else q in
    let m := q' * 2 ^ e in
    if 2 ^ 1024 <=? m then Inf (z <? 0) else Fin (Z.sgn z * m).

(** [a - b]. *)
Definition sub (a b : number) : number :=
  match a, b with
  | NaN, _ | _, NaN => NaN
  | Inf na, Inf nb => if Bool.eqb na nb then NaN else Inf na
  | Inf na, Fin _ => Inf na
  | Fin _, Inf nb => Inf (negb nb)
  | Fin x, Fin y => roundInteger (x - y)
  end.

(** [a * b]. *)
Definition mul (a b : number) : number :=
  match a, b with
  | NaN, _ | _, NaN => NaN
  | Inf na, Inf nb => Inf (xorb na nb)
  | Inf na, Fin y => if y =? 0 then NaN else Inf (xorb na (y <? 0))
  | Fin x, Inf nb => if x =? 0 then NaN else Inf (xorb (x <? 0) nb)
  | Fin x, Fin y => roundInteger (x * y)
  end.

(** Primitive values. *)
Inductive value : Type :=
| Undefined
| Null
| Boolean (b : bool)
| Number (n : number)
| Str (s : string).

(** [ToBoolean]. *)
Definition truthy (v : value) : bool :=
  match v with
  | Undefined | Null => false
  | Boolean b => b
  | Number NaN => false
  | Number (Inf _) => true
  | Number (Fin z) => negb (z =? 0)
  | Str s => negb (s =? "")%string
  end.

(** [String(v)]; for a finite number its decimal numeral, which is what
    the language gives below 10^21 (no number reaches [String] in this
    page: [parsePriceString] returns a number before converting). *)
Definition toString (v : value) : string :=
  match v with
  | Undefined => "undefined"
  | Null => "null"
  | Boolean true => "true"
  | Boolean false => "false"
  | Number NaN => "NaN"
  | Number (Inf false) => "Infinity"
  | Number (Inf true) => "-Infinity"
  | Number (Fin z) => NilEmpty.string_of_int (Z.to_int z)
  | Str s => s
  end.

(** An optional string field read as a value. *)
Definition ofField (f : option string) : value :=
  match f with None => Undefined | Some s => Str s end.

(** [f || ""] on an optional string field. *)
Definition orEmpty (f : option string) : string :=
  match f with
  | None => ""
  | Some s => s
  end.

(** *** Characters *)

(** White space and line terminators: U+0009 TAB, U+000A LF, U+000B VT,
    U+000C FF, U+000D CR, U+0020 SPACE and U+00A0 NO-BREAK SPACE. The
    others of the language (U+1680, U+2000 to U+200A, U+2028, U+2029,
    U+202F, U+205F, U+3000, U+FEFF) are above U+00FF. *)
Definition isWhiteSpace (c : ascii) : bool :=
  let n := N_of_ascii c in
  ((9 <=? n) && (n <=? 13) || (n =? 32) || (n =? 160))%N.

Definition isDigit (c : ascii) : bool :=
  let n := N_of_ascii c in
  ((48 <=? n) && (n <=? 57))%N.

Definition digitValue (c : ascii) : Z :=
  Z.of_N (N_of_ascii c) - 48.

(** The lower-case mapping of one code unit: A to Z and the upper-case
    letters U+00C0 to U+00DE (all but U+00D7, the multiplication sign) move
    up by 32; every other code unit below 256 is its own lower case. *)
Definition lowerChar (c : ascii) : ascii :=
  let n := N_of_ascii c in
  if ((65 <=? n) && (n <=? 90)
      || (192 <=? n) && (n <=? 222) && negb (n =? 215))%N
  then ascii_of_N (n + 32) else c.

(** *** Strings *)

Fixpoint mapChars (f : ascii -> ascii) (s : string) : string :=
  match s with
  | EmptyString => EmptyString
  | String c r => String (f c) (mapChars f r)
  end.

(** [s.toLowerCase()]. *)
Definition toLowerCase (s : string) : string := mapChars lowerChar s.

(** [s.replace(/c/g, "")] for a single character [c]. *)
Fixpoint removeChar (c : ascii) (s : string) : string :=
  match s with
  | EmptyString => EmptyString
  | String a r => if Ascii.eqb a c then removeChar c r else String a (removeChar c r)
  end.

Fixpoint trimStart (s : string) : string :=
  match s with
  | EmptyString => EmptyString
  | String c r => if isWhiteSpace c then trimStart r else s
  end.

Fixpoint trimEnd (s : string) : string :=
  match s with
  | EmptyString => EmptyString
  | String c r =>
      match trimEnd r with
      | EmptyString => if isWhiteSpace c then EmptyString else String c EmptyString
      | r' => String c r'
      end
  end.

(** [s.trim()]. *)
Definition trim (s : string) : string := trimEnd (trimStart s).

(** [s.startsWith(t)]. *)
Fixpoint startsWith (s t : string) {struct t} : bool :=
  match t with
  | EmptyString => true
  | String b t' =>
      match s with
      | EmptyString => false
      | String a s' => Ascii.eqb a b && startsWith s' t'
      end
  end.

(** [s.includes(t)]. *)
Fixpoint includes (s t : string) : bool :=
  startsWith s t
  || match s with
     | EmptyString => false
     | String _ r => includes r t
     end.

(** [s.split(/\s+/)]: [cur] is the piece being read, [skipping] tells that
    the scan is inside a run of white space (the piece before it has been
    emitted already). *)
Fixpoint splitScan (skipping : bool) (cur : string) (s : string) : list string :=
  match s with
  | EmptyString => [cur]
  | String c r =>
      if isWhiteSpace c
      then if skipping then splitScan true cur r
           else cur :: splitScan true EmptyString r
      else splitScan false (cur ++ String c EmptyString)%string r
  end.

Definition splitWhiteSpace (s : string) : list string :=
  splitScan false EmptyString s.

(** The longest prefix of decimal digits, read as an integer; [None] when
    there is no digit. *)
Fixpoint parseDigits (acc : Z) (seen : bool) (s : string) : option Z :=
  match s with
  | EmptyString => if seen then Some acc else None
  | String c r =>
      if isDigit c then parseDigits (10 * acc + digitValue c) true r
      else if seen then Some acc else None
  end.

(** [Number.parseInt(s, 10)]: leading white space is skipped, one sign is
    read, then the longest run of digits; no digit gives [NaN], and the
    integer read becomes a number by [roundInteger]. *)
Definition parseInt (s : string) : number :=
  let t := trimStart s in
  let '(sign, body) :=
    match t with
    | String "-"%char r => (-1, r)
    | String "+"%char r => (1, r)
    | _ => (1, t)
    end in
  match parseDigits 0 false body with
  | None => NaN
  | Some m => roundInteger (sign * m)
  end.

(** [s.replace(/[-/()]/g, " ")]. *)
Definition isNamePunct (c : ascii) : bool :=
  (Ascii.eqb c "-" || Ascii.eqb c "/" || Ascii.eqb c "(" || Ascii.eqb c ")")%char.

Definition blankPunct (s : string) : string :=
  mapChars (fun c => if isNamePunct c then " "%char else c) s.

(** [new Set(xs)] spread back into an array: the elements of [xs] in the
    order of their first insertion. *)
Section SetOf.
Context {A : Type} (eqbA : A -> A -> bool).

Definition setHas (s : list A) (x : A) : bool := existsb (eqbA x) s.

Definition setAdd (s : list A) (x : A) : list A :=
  if setHas s x then s else s ++ [x].

Definition newSet (xs : list A) : list A := fold_left setAdd xs [].
End SetOf.

(** [xs.sort(cmp)] on a copy. ECMAScript asks for a stable sort, so for a
    consistent comparator the outcome does not depend on the procedure
    (see [stable_sort_unique]); it is computed here by straight insertion:
    [b] goes before [a] only when [cmp a b > 0] (a [NaN] counts as [0]). *)
Section Sort.
Context {A : Type} (cmp : A -> A -> number).

Fixpoint insertSorted (x : A) (l : list A) : list A :=
  match l with
  | [] => [x]
  | y :: r => if gtb (cmp x y) (Fin 0) then y :: insertSorted x r else x :: l
  end.

Fixpoint sort (l : list A) : list A :=
  match l with
  | [] => []
  | x :: r => insertSorted x (sort r)
  end.
End Sort.

End Js.

Import Js.

(* ================================================================== *)
(** ** Data model *)

(** Modelled from the spec: the [Product] type is declared in
    [lib/google-sheets], which is not among the sources at hand. The fields
    are the ones the page reads; every text field may be absent, the price
    is the raw text of the sheet and the stock is whatever the sheet
    delivered, a number or not. *)
Record Product : Type := mkProduct {
  id : option string;
  sku : option string;
  nombre : option string;
  categoria : option string;
  marca : option string;
  precio3 : option string;
  stock : value;
  nivelDeJuego : option string;
  año : option string;
  urlImagenes : list string
}.

Inductive PriceSortOrder : Type := SortDefault | SortAsc | SortDesc.

(** The sentinel of the category and brand selectors. *)
Definition Todos : string := "Todos".

(** The [useState] cells of [CatalogPage] that the derivations read. *)
Record FilterState : Type := mkFilterState {
  searchTerm : string;
  selectedCategory : string;
  selectedBrand : string;
  showOutOfStock : bool;
  priceSort : PriceSortOrder
}.

(* ================================================================== *)
(** ** [parsePriceString] *)

Definition parsePriceString (priceStr : value) : number :=
  match priceStr with
  | Number n => n
  | _ =>
      if negb (truthy priceStr) then Fin 0
      else
        let cleaned := trim (removeChar "." (removeChar "$" (toString priceStr))) in
        let parsed := parseInt cleaned in
        if isNaN parsed then Fin 0 else parsed
  end.

(* ================================================================== *)
(** ** [normalizeProducts] *)

(** [typeof p.stock === "number" && !isNaN(p.stock) ? p.stock : 0]. *)
Definition normalizeStock (v : value) : value :=
  match v with
  | Number n => if negb (isNaN n) then v else Number (Fin 0)
  | _ => Number (Fin 0)
  end.

Definition normalizeProduct (p : Product) : Product :=
  {| id := id p; sku := sku p; nombre := nombre p; categoria := categoria p;
     marca := marca p; precio3 := precio3 p;
     stock := normalizeStock (stock p);
     nivelDeJuego := nivelDeJuego p; año := año p;
     urlImagenes := urlImagenes p |}.

Definition normalizeProducts (productsData : list Product) : list Product :=
  map normalizeProduct productsData.

(* ================================================================== *)
(** ** [filteredProducts] *)

(** [p.sku && p.sku.trim() !== ""]. *)
Definition validSku (p : Product) : bool :=
  match sku p with
  | None => false
  | Some s => negb (s =? "")%string && negb (trim s =? "")%string
  end.

(** [typeof p.stock === "number" ? p.stock : 0], then [stockNum > 0]. *)
Definition stockNum (p : Product) : number :=
  match stock p with
  | Number n => n
  | _ => Fin 0
  end.

Definition inStock (p : Product) : bool := gtb (stockNum p) (Fin 0).

(** [field === selected] for an optional field and a string. *)
Definition fieldIs (f : option string) (selected : string) : bool :=
  match f with
  | None => false
  | Some s => (s =? selected)%string
  end.

(** The test of one search term against one product. *)
Definition termMatches (p : Product) (term : string) : bool :=
  let normalizedName := blankPunct (toLowerCase (orEmpty (nombre p))) in
  let nameWords := splitWhiteSpace normalizedName in
  let normalizedSku := toLowerCase (orEmpty (sku p)) in
  let normalizedNivel := toLowerCase (orEmpty (nivelDeJuego p)) in
  let normalizedAño := toLowerCase (orEmpty (año p)) in
  if includes normalizedSku term then true
  else if existsb (fun word => startsWith word term) nameWords then true
  else if includes normalizedNivel term then true
  else if includes normalizedAño term then true
  else false.

Definition searchTermsOf (text : string) : list string :=
  let cleanSearch := trim (toLowerCase text) in
  splitWhiteSpace cleanSearch.

Definition searchMatches (text : string) (p : Product) : bool :=
  forallb (termMatches p) (searchTermsOf text).

Section Pipeline.
Variable isMinQuantityAccessory : Product -> bool.

Definition getReferencePrice (product : Product) : number :=
  let basePrice := parsePriceString (ofField (precio3 product)) in
  if isMinQuantityAccessory product then mul basePrice (Fin 2) else basePrice.

Definition comparePrice (order : PriceSortOrder) (a b : Product) : number :=
  let priceA := getReferencePrice a in
  let priceB := getReferencePrice b in
  match order with
  | SortAsc => sub priceA priceB
  | _ => sub priceB priceA
  end.

(** The six stages, in the order of the source. *)
Definition skuStage (l : list Product) : list Product := filter validSku l.

Definition stockStage (st : FilterState) (l : list Product) : list Product :=
  if negb (showOutOfStock st) then filter inStock l else l.

Definition categoryStage (st : FilterState) (l : list Product) : list Product :=
  if negb (selectedCategory st =? Todos)%string
  then filter (fun p => fieldIs (categoria p) (selectedCategory st)) l
  else l.

Definition brandStage (st : FilterState) (l : list Product) : list Product :=
  if negb (selectedBrand st =? Todos)%string
  then filter (fun p => fieldIs (marca p) (selectedBrand st)) l
  else l.

Definition searchStage (st : FilterState) (l : list Product) : list Product :=
  if negb (searchTerm st =? "")%string
  then filter (searchMatches (searchTerm st)) l
  else l.

Definition priceStage (st : FilterState) (l : list Product) : list Product :=
  match priceSort st with
  | SortDefault => l
  | order => sort (comparePrice order) l
  end.

Definition candidates (products : list Product) (st : FilterState) : list Product :=
  searchStage st (brandStage st (categoryStage st (stockStage st (skuStage products)))).

Definition filteredProducts (products : list Product) (st : FilterState) : list Product :=
  priceStage st (candidates products st).

End Pipeline.

(* ================================================================== *)
(** ** [categories] and [availableBrands] *)

Definition fieldEqb (a b : option string) : bool :=
  match a, b with
  | None, None => true
  | Some x, Some y => (x =? y)%string
  | _, _ => false
  end.

Definition categories (products : list Product) (st : FilterState) : list (option string) :=
  Some Todos :: newSet fieldEqb (map categoria (filter validSku products)).

(** [.filter(Boolean)] on optional strings. *)
Definition fieldTruthy (f : option string) : bool := truthy (ofField f).

Definition availableBrands (products : list Product) (st : FilterState) : list (option string) :=
  if negb (selectedCategory st =? Todos)%string then
    let categoryProducts :=
      filter (fun p => fieldIs (categoria p) (selectedCategory st) && validSku p) products in
    Some Todos :: newSet fieldEqb (filter fieldTruthy (map marca categoryProducts))
  else
    Some Todos :: newSet fieldEqb (filter fieldTruthy (map marca (filter validSku products))).

(* ================================================================== *)
(** ** The event handlers on the filter state *)

Definition setSearchTerm (v : string) (st : FilterState) : FilterState :=
  {| searchTerm := v; selectedCategory := selectedCategory st;
     selectedBrand := selectedBrand st; showOutOfStock := showOutOfStock st;
     priceSort := priceSort st |}.

Definition setSelectedCategory (v : string) (st : FilterState) : FilterState :=
  {| searchTerm := searchTerm st; selectedCategory := v;
     selectedBrand := selectedBrand st; showOutOfStock := showOutOfStock st;
     priceSort := priceSort st |}.

Definition setSelectedBrand (v : string) (st : FilterState) : FilterState :=
  {| searchTerm := searchTerm st; selectedCategory := selectedCategory st;
     selectedBrand := v; showOutOfStock := showOutOfStock st;
     priceSort := priceSort st |}.

Definition setShowOutOfStock (v : bool) (st : FilterState) : FilterState :=
  {| searchTerm := searchTerm st; selectedCategory := selectedCategory st;
     selectedBrand := selectedBrand st; showOutOfStock := v;
     priceSort := priceSort st |}.

Definition setPriceSort (v : PriceSortOrder) (st : FilterState) : FilterState :=
  {| searchTerm := searchTerm st; selectedCategory := selectedCategory st;
     selectedBrand := selectedBrand st; showOutOfStock := showOutOfStock st;
     priceSort := v |}.

(** The initial values of the [useState] cells. *)
Definition initialState : FilterState :=
  {| searchTerm := ""; selectedCategory := Todos; selectedBrand := Todos;
     showOutOfStock := false; priceSort := SortDefault |}.

Inductive Event : Type :=
| LogoClick
| ToggleOutOfStock
| SearchInput (text : string)
| CategoryChange (target : string)
| BrandChange (target : string)
| PriceSortChange (target : PriceSortOrder).

(** One handler run; the setters of a handler are applied in its order. *)
Definition handle (e : Event) (st : FilterState) : FilterState :=
  match e with
  | LogoClick =>
      setPriceSort SortDefault
        (setShowOutOfStock false
           (setSelectedBrand Todos (setSelectedCategory Todos (setSearchTerm "" st))))
  | ToggleOutOfStock => setShowOutOfStock (negb (showOutOfStock st)) st
  | SearchInput text => setSearchTerm text st
  | CategoryChange target =>
      setSearchTerm "" (setSelectedBrand Todos (setSelectedCategory target st))
  | BrandChange target => setSearchTerm "" (setSelectedBrand target st)
  | PriceSortChange target => setPriceSort target st
  end.

Definition run (es : list Event) (st : FilterState) : FilterState :=
  fold_left (fun s e => handle e s) es st.

(* ================================================================== *)
(** ** Vocabulary of the statements *)

(** [t] occurs in [s]. *)
Definition OccursIn (t s : string) : Prop :=
  exists pre post : string, s = (pre ++ t ++ post)%string.

(** [t] begins [s]. *)
Definition Begins (t s : string) : Prop :=
  exists rest : string, s = (t ++ rest)%string.

(** The words of a product name: lower case, the characters [- / ( )]
    blanked, cut at white space. *)
Definition nameWordsOf (p : Product) : list string :=
  splitWhiteSpace (blankPunct (toLowerCase (orEmpty (nombre p)))).

(** A search term is found in a product through one of its four fields. *)
Definition TermFound (p : Product) (term : string) : Prop :=
  OccursIn term (toLowerCase (orEmpty (sku p)))
  \/ (exists word, In word (nameWordsOf p) /\ Begins term word)
  \/ OccursIn term (toLowerCase (orEmpty (nivelDeJuego p)))
  \/ OccursIn term (toLowerCase (orEmpty (año p))).

Fixpoint allWhiteSpace (s : string) : bool :=
  match s with
  | EmptyString => true
  | String c r => isWhiteSpace c && allWhiteSpace r
  end.

(** [a] stands somewhere before [b] in [l]. *)
Definition Before {A : Type} (l : list A) (a b : A) : Prop :=
  exists l1 l2 l3, l = l1 ++ a :: l2 ++ b :: l3.

(** The order of two elements by an integer key. *)
Definition keyLe {A : Type} (key : A -> Z) (a b : A) : Prop := key a <= key b.

(** [s] is [l] with some elements left out. *)
Inductive Subsequence {A : Type} : list A -> list A -> Prop :=
| Subsequence_nil : Subsequence [] []
| Subsequence_skip x s l : Subsequence s l -> Subsequence s (x :: l)
| Subsequence_keep x s l : Subsequence s l -> Subsequence (x :: s) (x :: l).

(** Duplicates removed, each value at the place of its first occurrence. *)
Fixpoint firstSeen {A : Type} (eqbA : A -> A -> bool) (l : list A) : list A :=
  match l with
  | [] => []
  | x :: r => x :: filter (fun y => negb (eqbA y x)) (firstSeen eqbA r)
  end.

(** The reading of a price text that the specification describes: every
    [$] and [.] is dropped, blanks around the rest are ignored, and the
    rest is read as a decimal integer with an optional sign, digit by
    position; a text that does not begin with an integer counts as 0. *)
Fixpoint dropPriceMarks (s : string) : string :=
  match s with
  | EmptyString => EmptyString
  | String c r =>
      if (Ascii.eqb c "$" || Ascii.eqb c ".")%char then dropPriceMarks r
      else String c (dropPriceMarks r)
  end.

Fixpoint leadingDigits (s : string) : list Z :=
  match s with
  | EmptyString => []
  | String c r => if isDigit c then digitValue c :: leadingDigits r else []
  end.

Fixpoint positional (ds : list Z) : Z :=
  match ds with
  | [] => 0
  | d :: r => d * 10 ^ Z.of_nat (List.length r) + positional r
  end.

Definition specReadInteger (s : string) : option Z :=
  let '(sign, body) :=
    match s with
    | String "-"%char r => (-1, r)
    | String "+"%char r => (1, r)
    | _ => (1, s)
    end in
  match leadingDigits body with
  | [] => None
  | ds => Some (sign * positional ds)
  end.

Definition specParsePrice (raw : option string) : Z :=
  match raw with
  | None => 0
  | Some s =>
      match specReadInteger (trim (dropPriceMarks s)) with
      | Some z => z
      | None => 0
      end
  end.

(** The reference price as the specification words it: the price read
    from the raw text, as a number, doubled for a product under
    minimum-quantity pricing. *)
Definition specReferencePrice (accessory : Product -> bool) (p : Product) : number :=
  let base := roundInteger (specParsePrice (precio3 p)) in
  if accessory p then mul base (Fin 2) else base.

(** A number that a price can be: an infinity, or a finite number within
    the range of the doubles. *)
Definition bounded (n : number) : Prop :=
  match n with
  | NaN => False
  | Inf _ => True
  | Fin z => Z.abs z < 2 ^ 1024
  end.

(** The place of such a number on the line of the integers, the infinities
    at the two ends. *)
Definition rank (n : number) : Z :=
  match n with
  | NaN => 0
  | Inf negative => if negative then - 2 ^ 1024 else 2 ^ 1024
  | Fin z => z
  end.

Definition priceRank (accessory : Product -> bool) (p : Product) : Z :=
  rank (getReferencePrice accessory p).

(** A SKU that holds something besides white space. *)
Definition SkuUsable (p : Product) : Prop :=
  exists s, sku p = Some s /\ allWhiteSpace s = false.

(** A stock that is a number above zero. *)
Definition StockPositive (p : Product) : Prop :=
  exists n, stock p = Number n /\ (n = Inf false \/ exists z, n = Fin z /\ 0 < z).

(** A stock that is a finite number, zero or more. *)
Definition nonNegativeFinite (v : value) : bool :=
  match v with
  | Number (Fin z) => 0 <=? z
  | _ => false
  end.

(** The products of the worked scenario and its filter state. *)
Definition productA1 : Product :=
  {| id := None; sku := Some "A1"; nombre := Some "Paleta Pro";
     categoria := Some "Paletas"; marca := Some "X"; precio3 := Some "$1.000";
     stock := Number (Fin 5); nivelDeJuego := Some "avanzado"; año := Some "2026";
     urlImagenes := [] |}.

Definition productBroken : Product :=
  {| id := None; sku := Some ""; nombre := Some "broken";
     categoria := None; marca := None; precio3 := None;
     stock := Undefined; nivelDeJuego := None; año := None;
     urlImagenes := [] |}.

Definition productB2 : Product :=
  {| id := None; sku := Some "B2"; nombre := Some "Pelota Mix";
     categoria := Some "Pelotas"; marca := Some "Y"; precio3 := Some "$200";
     stock := Number (Fin 0); nivelDeJuego := Some ""; año := Some "2025";
     urlImagenes := [] |}.

Definition scenarioProducts : list Product := [productA1; productBroken; productB2].

Definition scenarioState : FilterState :=
  {| searchTerm := "avanzado"; selectedCategory := Todos; selectedBrand := Todos;
     showOutOfStock := false; priceSort := SortDefault |}.

(** A record whose sheet cell for the stock holds a negative count. *)
Definition productReturned : Product :=
  {| id := None; sku := Some "R9"; nombre := Some "Grip"; categoria := Some "Accesorios";
     marca := Some "Z"; precio3 := Some "$500"; stock := Number (Fin (-5));
     nivelDeJuego := None; año := None; urlImagenes := [] |}.

(** An accessory predicate for the examples: the products of the
    category "Accesorios". *)
Definition accessoriesOnly (p : Product) : bool :=
  fieldIs (categoria p) "Accesorios".

(* ================================================================== *)
(** ** The product loader of the page effect *)

(** The cells the effect writes: the [products] and [loading] states of
    the page and the [cancelled] flag of the effect's closure. *)
Record PageState : Type := mkPageState {
  products : list Product;
  loading : bool;
  cancelled : bool
}.

(** [useState([])], [useState(true)] and [let cancelled = false]. *)
Definition initialPage : PageState :=
  {| products := []; loading := true; cancelled := false |}.

Definition setProducts (v : list Product) (pg : PageState) : PageState :=
  {| products := v; loading := loading pg; cancelled := cancelled pg |}.

Definition setLoading (v : bool) (pg : PageState) : PageState :=
  {| products := products pg; loading := v; cancelled := cancelled pg |}.

(** [loadData] runs in two parts around its [await]: the part before the
    fetch, then the part after a fetch that returned or the handler of a
    fetch that threw. The cleanup of the effect is the fourth event. *)
Inductive LoadEvent : Type :=
| LoadBegin (isBackgroundRefresh : bool)
| LoadResolved (isBackgroundRefresh : bool) (productsData : list Product)
| LoadRejected (isBackgroundRefresh : bool)
| Cleanup.

Definition loadStep (e : LoadEvent) (pg : PageState) : PageState :=
  match e with
  | LoadBegin isBackgroundRefresh =>
      if negb isBackgroundRefresh then setLoading true pg else pg
  | LoadResolved isBackgroundRefresh productsData =>
      let normalized := normalizeProducts productsData in
      if negb (cancelled pg) then
        let pg' := setProducts normalized pg in
        if negb isBackgroundRefresh then setLoading false pg' else pg'
      else pg
  | LoadRejected isBackgroundRefresh =>
      if negb (cancelled pg) && negb isBackgroundRefresh then setLoading false pg
      else pg
  | Cleanup =>
      {| products := products pg; loading := loading pg; cancelled := true |}
  end.

Definition loadRun (es : list LoadEvent) (pg : PageState) : PageState :=
  fold_left (fun s e => loadStep e s) es pg.

(* ================================================================== *)
(** ** The main area of the page *)

(** The props handed to one [ProductCard]. *)
Record Card : Type := mkCard {
  cardKey : option string;
  cardProduct : Product;
  cardImages : list string;
  cardShowOutOfStock : bool;
  priorityImage : bool
}.

Inductive MainView : Type :=
| Spinner
| NoProductsFound
| ProductGrid (cards : list Card).

(** [filteredProducts.map((product, index) => <ProductCard ... />)], from
    the index [index] on. *)
Fixpoint productCards (index : nat) (shown : bool) (l : list Product) : list Card :=
  match l with
  | [] => []
  | product :: r =>
      {| cardKey := id product; cardProduct := product;
         cardImages := urlImagenes product; cardShowOutOfStock := shown;
         priorityImage := (index <? 6)%nat |}
      :: productCards (S index) shown r
  end.

Definition mainView (isLoading : bool) (shown : bool) (filtered : list Product) : MainView :=
  if isLoading then Spinner
  else if (List.length filtered =? 0)%nat then NoProductsFound
  else ProductGrid (productCards 0 shown filtered).

(** The main area for a page state and a filter state. *)
Definition pageView (accessory : Product -> bool) (pg : PageState) (st : FilterState)
  : MainView :=
  mainView (loading pg) (showOutOfStock st)
    (filteredProducts accessory (products pg) st).

(* ================================================================== *)
(** ** Further vocabulary *)

(** The test a product has to pass to be a candidate, all stages at once. *)
Definition keeps (st : FilterState) (p : Product) : bool :=
  validSku p
  && (showOutOfStock st || inStock p)
  && ((selectedCategory st =? Todos)%string || fieldIs (categoria p) (selectedCategory st))
  && ((selectedBrand st =? Todos)%string || fieldIs (marca p) (selectedBrand st))
  && ((searchTerm st =? "")%string || searchMatches (searchTerm st) p).

(** A stock as normalisation leaves it: a number other than NaN. *)
Definition StockNormal (p : Product) : Prop :=
  exists n, stock p = Number n /\ isNaN n = false.

(** The decimal numeral of a natural number. *)
Definition decimalOf (n : N) : string :=
  NilEmpty.string_of_uint (N.to_uint n).

Fixpoint noWhiteSpace (s : string) : bool :=
  match s with
  | EmptyString => true
  | String c r => negb (isWhiteSpace c) && noWhiteSpace r
  end.

(** The last character, if any, is not white space. *)
Fixpoint endsClean (s : string) : bool :=
  match s with
  | EmptyString => true
  | String c r =>
      match r with
      | EmptyString => negb (isWhiteSpace c)
      | _ => endsClean r
      end
  end.

(* ================================================================== *)
(** ** The text processing of the search, said without the code *)

(** The upper-case letters among the code units below 256, by code, and
    their lower-case letters in the same order. *)
Definition upperLetters : list N :=
  map N.of_nat (seq 65 26 ++ seq 192 23 ++ seq 216 7).

Definition lowerLetters : list N :=
  map N.of_nat (seq 97 26 ++ seq 224 23 ++ seq 248 7).

Fixpoint lookupLetter (n : N) (table : list (N * N)) : N :=
  match table with
  | [] => n
  | (upper, lower) :: rest => if (upper =? n)%N then lower else lookupLetter n rest
  end.

(** [c'] is the lower case of [c]. *)
Definition LowerOf (c c' : ascii) : Prop :=
  N_of_ascii c' = lookupLetter (N_of_ascii c) (combine upperLetters lowerLetters).

(** [c'] is [c] with the punctuation of a name, [- / ( )], made a space. *)
Definition BlankOf (c c' : ascii) : Prop :=
  (In c ["-"; "/"; "("; ")"]%char /\ c' = " "%char)
  \/ (~ In c ["-"; "/"; "("; ")"]%char /\ c' = c).

(** Two strings of the same length related character by character. *)
Inductive Pointwise (R : ascii -> ascii -> Prop) : string -> string -> Prop :=
| Pointwise_nil : Pointwise R EmptyString EmptyString
| Pointwise_cons c c' s s' :
    R c c' -> Pointwise R s s' -> Pointwise R (String c s) (String c' s').

Definition Lowered : string -> string -> Prop := Pointwise LowerOf.

Definition Blanked : string -> string -> Prop := Pointwise BlankOf.

(** The first character, if any, is not white space. *)
Definition startsClean (s : string) : bool :=
  match s with
  | EmptyString => true
  | String c _ => negb (isWhiteSpace c)
  end.

(** [t] is [s] without the white space at its two ends. *)
Definition Trimmed (s t : string) : Prop :=
  exists pre post : string,
    s = (pre ++ t ++ post)%string
    /\ allWhiteSpace pre = true /\ allWhiteSpace post = true
    /\ startsClean t = true /\ endsClean t = true.

(** [pieces] are the parts of [s] between its runs of white space, each run
    taken whole; a run at either end leaves an empty piece there. *)
Inductive SplitOnBlanks : string -> list string -> Prop :=
| SplitOnBlanks_last w :
    noWhiteSpace w = true -> SplitOnBlanks w [w]
| SplitOnBlanks_cut w sep rest pieces :
    noWhiteSpace w = true ->
    sep <> EmptyString -> allWhiteSpace sep = true ->
    startsClean rest = true ->
    SplitOnBlanks rest pieces ->
    SplitOnBlanks (w ++ sep ++ rest)%string (w :: pieces).

(** The terms of a search text: the text in lower case, trimmed, cut at
    white space. *)
Definition SearchTermsSpec (text : string) (terms : list string) : Prop :=
  exists lowered trimmed,
    Lowered text lowered /\ Trimmed lowered trimmed /\ SplitOnBlanks trimmed terms.

(** The words of a name: the name in lower case, its punctuation made
    spaces, cut at white space. *)
Definition NameWordsSpec (name : string) (words : list string) : Prop :=
  exists lowered blanked,
    Lowered name lowered /\ Blanked lowered blanked /\ SplitOnBlanks blanked words.

(** A term is found in a product: it occurs in the lower-case SKU, or
    begins a word of the name, or occurs in the lower-case game level, or
    occurs in the lower-case year. *)
Definition SpecTermFound (p : Product) (term : string) : Prop :=
  (exists low, Lowered (orEmpty (sku p)) low /\ OccursIn term low)
  \/ (exists words word,
         NameWordsSpec (orEmpty (nombre p)) words /\ In word words /\ Begins term word)
  \/ (exists low, Lowered (orEmpty (nivelDeJuego p)) low /\ OccursIn term low)
  \/ (exists low, Lowered (orEmpty (año p)) low /\ OccursIn term low).

(** A product passes a search text: every term of the text is found. *)
Definition SpecSearchKeeps (text : string) (p : Product) : Prop :=
  exists terms, SearchTermsSpec text terms /\ Forall (SpecTermFound p) terms.

(** The no-break space U+00A0. *)
Definition nbsp : ascii := ascii_of_N 160.

(** A record whose price has more digits than a double holds exactly. *)
Definition productGrand : Product :=
  {| id := Some "g1"; sku := Some "G1"; nombre := Some "Cancha"; categoria := Some "Obras";
     marca := Some "W"; precio3 := Some "$9.007.199.254.740.993"; stock := Number (Fin 1);
     nivelDeJuego := None; año := None; urlImagenes := [] |}.

Definition productGrandTwin : Product :=
  {| id := Some "g2"; sku := Some "G2"; nombre := Some "Cancha Doble";
     categoria := Some "Obras"; marca := Some "W";
     precio3 := Some "$9.007.199.254.740.992"; stock := Number (Fin 1);
     nivelDeJuego := None; año := None; urlImagenes := [] |}.

(** A record whose SKU is one no-break space. *)
Definition productGhost : Product :=
  {| id := Some "x0"; sku := Some (String nbsp ""); nombre := Some "Sin codigo";
     categoria := Some "Varios"; marca := Some "Fantasma"; precio3 := Some "$10";
     stock := Number (Fin 4); nivelDeJuego := None; año := None; urlImagenes := [] |}.

(** A record whose name has punctuation and two upper-case letters beyond
    A to Z: it begins with U+00D1, N with tilde, and its fifth character
    is U+00DA, U with acute. *)
Definition productNandu : Product :=
  {| id := Some "n5"; sku := Some "N5";
     nombre := Some (String (ascii_of_N 209)
                       ("AND" ++ String (ascii_of_N 218) "-Pro (2026)"));
     categoria := Some "Paletas"; marca := Some "Z"; precio3 := Some "$75.000";
     stock := Number (Fin 3); nivelDeJuego := Some "Intermedio"; año := None;
     urlImagenes := [] |}.

(** Two records with identifiers. *)
Definition productMesa : Product :=
  {| id := Some "m7"; sku := Some "M7"; nombre := Some "Mesa Plegable";
     categoria := Some "Mesas"; marca := Some "X"; precio3 := Some "$90.000";
     stock := Number (Fin 2); nivelDeJuego := None; año := Some "2026";
     urlImagenes := [] |}.

Definition productRed : Product :=
  {| id := Some "r3"; sku := Some "R3"; nombre := Some "Red (Pro)";
     categoria := Some "Mesas"; marca := Some "Y"; precio3 := Some "$12.500";
     stock := Number (Fin 9); nivelDeJuego := None; año := Some "2025";
     urlImagenes := [] |}.

(* ================================================================== *)
(** ** Strings: the boolean tests against their meaning *)

Lemma startsWith_Begins (s t : string) :
  startsWith s t = true <-> Begins t s.
Proof.
  revert s. induction t as [|b t IH]; intros s; simpl.
  - split; [intros _; exists s; reflexivity | reflexivity].
  - destruct s as [|a s].
    + split; [discriminate | intros [r Hr]; discriminate].
    + rewrite andb_true_iff, Ascii.eqb_eq, IH. split.
      * intros [-> [r ->]]. exists r. reflexivity.
      * intros [r Hr]. simpl in Hr. injection Hr as -> ->.
        split; [reflexivity | exists r; reflexivity].
Qed.

Lemma includes_OccursIn (s t : string) :
  includes s t = true <-> OccursIn t s.
Proof.
  induction s as [|a s IH].
  - cbn [includes]. rewrite orb_false_r, startsWith_Begins. split.
    + intros [r Hr]. exists EmptyString, r. exact Hr.
    + intros [pre [post H]]. destruct pre; [exists post; exact H | discriminate].
  - cbn [includes]. rewrite orb_true_iff, startsWith_Begins, IH. split.
    + intros [[r Hr] | [pre [post H]]].
      * exists EmptyString, r. exact Hr.
      * exists (String a pre), post. simpl. now rewrite H.
    + intros [pre [post H]]. destruct pre as [|c pre].
      * left. exists post. exact H.
      * right. simpl in H. injection H as _ H. exists pre, post. exact H.
Qed.

Lemma includes_empty (s : string) : includes s EmptyString = true.
Proof. destruct s; reflexivity. Qed.

Lemma termMatches_TermFound (p : Product) (term : string) :
  termMatches p term = true <-> TermFound p term.
Proof.
  unfold termMatches, TermFound. fold (nameWordsOf p).
  rewrite <- !includes_OccursIn.
  assert (Hw : existsb (fun word => startsWith word term) (nameWordsOf p) = true
               <-> exists word, In word (nameWordsOf p) /\ Begins term word).
  { rewrite existsb_exists. split; intros [w [Hin Hw]]; exists w; split; auto;
      now apply startsWith_Begins. }
  rewrite <- Hw.
  destruct (includes (toLowerCase (orEmpty (sku p))) term);
    destruct (existsb (fun word => startsWith word term) (nameWordsOf p));
    destruct (includes (toLowerCase (orEmpty (nivelDeJuego p))) term);
    destruct (includes (toLowerCase (orEmpty (año p))) term);
    intuition discriminate.
Qed.

Lemma searchMatches_spec (text : string) (p : Product) :
  searchMatches text p = true <-> Forall (TermFound p) (searchTermsOf text).
Proof.
  unfold searchMatches. rewrite forallb_forall, Forall_forall.
  split; intros H t Ht; apply termMatches_TermFound, H, Ht.
Qed.

Lemma lowerChar_white (c : ascii) :
  isWhiteSpace c = true -> lowerChar c = c.
Proof.
  destruct c as [[] [] [] [] [] [] [] []]; vm_compute; congruence.
Qed.

Lemma trim_allWhiteSpace (s : string) :
  allWhiteSpace s = true -> trim (toLowerCase s) = EmptyString.
Proof.
  unfold trim, toLowerCase. induction s as [|c s IH]; simpl; [reflexivity|].
  rewrite andb_true_iff. intros [Hc Hs].
  rewrite (lowerChar_white c Hc), Hc. apply IH, Hs.
Qed.

Lemma searchMatches_blank (text : string) (p : Product) :
  allWhiteSpace text = true -> searchMatches text p = true.
Proof.
  intros H. unfold searchMatches, searchTermsOf.
  rewrite (trim_allWhiteSpace text H). cbn [splitWhiteSpace splitScan forallb].
  unfold termMatches. now rewrite includes_empty.
Qed.

Lemma filter_all {A : Type} (f : A -> bool) (l : list A) :
  (forall x, In x l -> f x = true) -> filter f l = l.
Proof.
  induction l as [|x l IH]; simpl; intros H; [reflexivity|].
  rewrite (H x (or_introl eq_refl)). f_equal. apply IH. intros y Hy. apply H. now right.
Qed.

(* ================================================================== *)
(** ** The text operations against their description *)

Lemma append_empty_r (s : string) : (s ++ "")%string = s.
Proof. induction s as [|c s IH]; cbn [String.append]; [reflexivity | now rewrite IH]. Qed.

Lemma append_assoc (a b c : string) : ((a ++ b) ++ c)%string = (a ++ b ++ c)%string.
Proof. induction a as [|x a IH]; cbn [String.append]; [reflexivity | now rewrite IH]. Qed.

Lemma snoc_append (cur : string) (c : ascii) (r : string) :
  ((cur ++ String c EmptyString) ++ r)%string = (cur ++ String c r)%string.
Proof. now rewrite append_assoc. Qed.

Lemma snoc_not_empty (cur : string) (c : ascii) :
  (cur ++ String c EmptyString)%string <> EmptyString.
Proof. destruct cur; discriminate. Qed.

Lemma noWhiteSpace_snoc (cur : string) (c : ascii) :
  noWhiteSpace cur = true -> isWhiteSpace c = false ->
  noWhiteSpace (cur ++ String c EmptyString) = true.
Proof.
  intros Hcur Hc. induction cur as [|d cur IH]; cbn [String.append noWhiteSpace] in *.
  - now rewrite Hc.
  - apply andb_true_iff in Hcur. destruct Hcur as [Hd Hcur].
    now rewrite Hd, IH.
Qed.

(** The white space of the strings at hand, by code. *)
Lemma isWhiteSpace_codes (c : ascii) :
  isWhiteSpace c = true <-> In (N_of_ascii c) [9; 10; 11; 12; 13; 32; 160]%N.
Proof.
  destruct c as [[] [] [] [] [] [] [] []]; vm_compute;
    intuition (discriminate || congruence).
Qed.

Lemma Pointwise_map (R : ascii -> ascii -> Prop) (f : ascii -> ascii) :
  (forall c c', R c c' <-> c' = f c) ->
  forall s s', Pointwise R s s' <-> s' = mapChars f s.
Proof.
  intros HR s s'. split.
  - induction 1 as [|c c' s s' Hc _ IH]; cbn [mapChars]; [reflexivity|].
    apply HR in Hc. now subst.
  - intros ->. induction s as [|c s IH]; cbn [mapChars]; constructor;
      [now apply HR | exact IH].
Qed.

Lemma LowerOf_lowerChar (c c' : ascii) : LowerOf c c' <-> c' = lowerChar c.
Proof.
  unfold LowerOf. split.
  - intros H. rewrite <- (ascii_N_embedding c'), H.
    destruct c as [[] [] [] [] [] [] [] []]; reflexivity.
  - intros ->. destruct c as [[] [] [] [] [] [] [] []]; reflexivity.
Qed.

Lemma BlankOf_blank (c c' : ascii) :
  BlankOf c c' <-> c' = (if isNamePunct c then " "%char else c).
Proof.
  unfold BlankOf, isNamePunct. cbn [In].
  destruct (Ascii.eqb_spec c "-"), (Ascii.eqb_spec c "/"), (Ascii.eqb_spec c "("),
    (Ascii.eqb_spec c ")"); cbn [orb]; subst; intuition congruence.
Qed.

(** Lower-casing, as described, is [toLowerCase]. *)
Lemma Lowered_toLowerCase (s s' : string) : Lowered s s' <-> s' = toLowerCase s.
Proof. apply Pointwise_map, LowerOf_lowerChar. Qed.

(** Blanking the punctuation of a name, as described, is [blankPunct]. *)
Lemma Blanked_blankPunct (s s' : string) : Blanked s s' <-> s' = blankPunct s.
Proof. apply (Pointwise_map BlankOf), BlankOf_blank. Qed.

Lemma trimStart_split (s : string) :
  exists pre, s = (pre ++ trimStart s)%string /\ allWhiteSpace pre = true.
Proof.
  induction s as [|c s [pre [E Hpre]]]; cbn [trimStart].
  - now exists EmptyString.
  - destruct (isWhiteSpace c) eqn:Hc.
    + exists (String c pre). cbn [String.append allWhiteSpace].
      now rewrite <- E, Hc, Hpre.
    + now exists EmptyString.
Qed.

Lemma trimEnd_split (s : string) :
  exists post, s = (trimEnd s ++ post)%string /\ allWhiteSpace post = true.
Proof.
  induction s as [|c s [post [E Hpost]]]; cbn [trimEnd].
  - now exists EmptyString.
  - destruct (trimEnd s) as [|d r] eqn:Et.
    + cbn [String.append] in E. subst s. destruct (isWhiteSpace c) eqn:Hc.
      * exists (String c post). cbn [String.append allWhiteSpace]. now rewrite Hc, Hpost.
      * exists post. now cbn [String.append].
    + exists post. cbn [String.append] in *. now rewrite <- E.
Qed.

Lemma trimEnd_cons_clean (c : ascii) (s : string) :
  isWhiteSpace c = false -> trimEnd (String c s) = String c (trimEnd s).
Proof. intros H. cbn [trimEnd]. rewrite H. now destruct (trimEnd s). Qed.

Lemma endsClean_trimEnd (s : string) : endsClean (trimEnd s) = true.
Proof.
  induction s as [|c s IH]; cbn [trimEnd]; [reflexivity|].
  destruct (trimEnd s) as [|d r].
  - destruct (isWhiteSpace c) eqn:Hc; cbn [endsClean]; [reflexivity | now rewrite Hc].
  - exact IH.
Qed.

Lemma startsClean_trimStart (s : string) : startsClean (trimStart s) = true.
Proof.
  induction s as [|c s IH]; cbn [trimStart]; [reflexivity|].
  destruct (isWhiteSpace c) eqn:Hc; [exact IH|]. cbn [startsClean]. now rewrite Hc.
Qed.

Lemma startsClean_trimEnd (s : string) :
  startsClean s = true -> startsClean (trimEnd s) = true.
Proof.
  destruct s as [|c s]; [reflexivity|]. cbn [startsClean]. intros Hc.
  apply negb_true_iff in Hc. rewrite (trimEnd_cons_clean c s Hc).
  cbn [startsClean]. now rewrite Hc.
Qed.

Lemma trimStart_blanks (pre x : string) :
  allWhiteSpace pre = true -> trimStart (pre ++ x) = trimStart x.
Proof.
  induction pre as [|c pre IH]; cbn [String.append allWhiteSpace trimStart];
    [reflexivity|].
  intros H. apply andb_true_iff in H. destruct H as [Hc Hpre]. now rewrite Hc, IH.
Qed.

Lemma trimStart_clean (s : string) : startsClean s = true -> trimStart s = s.
Proof.
  destruct s as [|c s]; [reflexivity|]. cbn [startsClean trimStart].
  intros H. apply negb_true_iff in H. now rewrite H.
Qed.

Lemma trimEnd_blanks (post : string) :
  allWhiteSpace post = true -> trimEnd post = EmptyString.
Proof.
  induction post as [|c post IH]; cbn [allWhiteSpace trimEnd]; [reflexivity|].
  intros H. apply andb_true_iff in H. destruct H as [Hc Hpost].
  now rewrite (IH Hpost), Hc.
Qed.

Lemma trimEnd_clean (t post : string) :
  endsClean t = true -> allWhiteSpace post = true -> trimEnd (t ++ post) = t.
Proof.
  intros Ht Hpost. induction t as [|c t IH]; cbn [String.append].
  - now apply trimEnd_blanks.
  - cbn [trimEnd]. destruct t as [|d t].
    + cbn [String.append endsClean] in *. rewrite (trimEnd_blanks post Hpost).
      apply negb_true_iff in Ht. now rewrite Ht.
    + cbn [endsClean] in Ht. rewrite (IH Ht). reflexivity.
Qed.

(** Trimming, as described, is [trim]. *)
Lemma Trimmed_trim (s t : string) : Trimmed s t <-> t = trim s.
Proof.
  unfold Trimmed, trim. split.
  - intros (pre & post & -> & Hpre & Hpost & Hs & He).
    rewrite (trimStart_blanks pre _ Hpre).
    destruct t as [|c t].
    + cbn [String.append]. destruct (trimStart_split post) as [b [E Hb]].
      assert (Hall : allWhiteSpace (trimStart post) = true).
      { clear -Hpost. induction post as [|c post IH]; cbn [allWhiteSpace trimStart] in *;
          [reflexivity|].
        apply andb_true_iff in Hpost. destruct Hpost as [Hc Hp]. rewrite Hc. now apply IH. }
      symmetry. now apply trimEnd_blanks.
    + rewrite trimStart_clean by exact Hs. symmetry. now apply trimEnd_clean.
  - intros ->. destruct (trimStart_split s) as [pre [E Hpre]].
    destruct (trimEnd_split (trimStart s)) as [post [E' Hpost]].
    exists pre, post. repeat split; auto.
    + now rewrite <- E', <- E.
    + apply startsClean_trimEnd, startsClean_trimStart.
    + apply endsClean_trimEnd.
Qed.

Lemma splitScan_skip (s : string) :
  splitScan true EmptyString s = splitScan false EmptyString (trimStart s).
Proof.
  induction s as [|c s IH]; cbn [splitScan trimStart]; [reflexivity|].
  destruct (isWhiteSpace c) eqn:Hc; [exact IH|]. cbn [splitScan]. now rewrite Hc.
Qed.

Lemma splitScan_word (w cur x : string) :
  noWhiteSpace w = true ->
  splitScan false cur (w ++ x) = splitScan false (cur ++ w) x.
Proof.
  revert cur. induction w as [|c w IH]; intros cur Hw; cbn [String.append].
  - now rewrite append_empty_r.
  - cbn [noWhiteSpace] in Hw. apply andb_true_iff in Hw. destruct Hw as [Hc Hw].
    apply negb_true_iff in Hc. cbn [splitScan]. rewrite Hc, (IH _ Hw).
    now rewrite snoc_append.
Qed.

Lemma splitScan_sound (s : string) :
  (forall cur, noWhiteSpace cur = true ->
               SplitOnBlanks (cur ++ s) (splitScan false cur s))
  /\ SplitOnBlanks (trimStart s) (splitScan true EmptyString s).
Proof.
  induction s as [|c s [IH1 IH2]]; cbn [splitScan trimStart].
  - split.
    + intros cur Hcur. rewrite append_empty_r. now constructor.
    + now constructor.
  - destruct (isWhiteSpace c) eqn:Hc.
    + split; [|exact IH2].
      intros cur Hcur. destruct (trimStart_split s) as [pre [E Hpre]].
      replace (cur ++ String c s)%string
        with (cur ++ String c pre ++ trimStart s)%string
        by (cbn [String.append]; now rewrite <- E).
      constructor; auto.
      * discriminate.
      * cbn [allWhiteSpace]. now rewrite Hc, Hpre.
      * apply startsClean_trimStart.
    + assert (G : forall cur, noWhiteSpace cur = true ->
                    SplitOnBlanks (cur ++ String c s)
                      (splitScan false (cur ++ String c EmptyString) s)).
      { intros cur Hcur. rewrite <- snoc_append. apply IH1.
        now apply noWhiteSpace_snoc. }
      split; [exact G|]. apply (G EmptyString). reflexivity.
Qed.

(** Cutting at white space, as described, is [split(/\s+/)]. *)
Lemma SplitOnBlanks_split (s : string) (pieces : list string) :
  SplitOnBlanks s pieces <-> pieces = splitWhiteSpace s.
Proof.
  unfold splitWhiteSpace. split.
  - induction 1 as [w Hw | w sep rest pieces Hw Hne Hsep Hrest _ IH].
    + rewrite <- (append_empty_r w) at 2. rewrite (splitScan_word w _ _ Hw).
      reflexivity.
    + rewrite (splitScan_word w _ _ Hw). cbn [String.append].
      destruct sep as [|c sep]; [contradiction|].
      cbn [allWhiteSpace] in Hsep. apply andb_true_iff in Hsep.
      destruct Hsep as [Hc Hsep]. cbn [String.append splitScan]. rewrite Hc.
      f_equal. rewrite splitScan_skip, (trimStart_blanks sep rest Hsep),
        (trimStart_clean rest Hrest). exact IH.
  - intros ->. apply (proj1 (splitScan_sound s) EmptyString). reflexivity.
Qed.

Lemma SearchTermsSpec_searchTermsOf (text : string) (terms : list string) :
  SearchTermsSpec text terms <-> terms = searchTermsOf text.
Proof.
  unfold SearchTermsSpec, searchTermsOf. split.
  - intros (lowered & trimmed & Hl & Ht & Hs).
    apply Lowered_toLowerCase in Hl. apply Trimmed_trim in Ht.
    apply SplitOnBlanks_split in Hs. now subst.
  - intros ->. exists (toLowerCase text), (trim (toLowerCase text)).
    split; [now apply Lowered_toLowerCase|].
    split; [now apply Trimmed_trim | now apply SplitOnBlanks_split].
Qed.

Lemma NameWordsSpec_nameWordsOf (p : Product) (words : list string) :
  NameWordsSpec (orEmpty (nombre p)) words <-> words = nameWordsOf p.
Proof.
  unfold NameWordsSpec, nameWordsOf. split.
  - intros (lowered & blanked & Hl & Hb & Hs).
    apply Lowered_toLowerCase in Hl. apply Blanked_blankPunct in Hb.
    apply SplitOnBlanks_split in Hs. now subst.
  - intros ->. do 2 eexists.
    split; [now apply Lowered_toLowerCase|].
    split; [now apply Blanked_blankPunct | now apply SplitOnBlanks_split].
Qed.

Lemma Lowered_OccursIn (term s : string) :
  (exists low, Lowered s low /\ OccursIn term low) <-> OccursIn term (toLowerCase s).
Proof.
  split.
  - intros [low [Hl Ho]]. apply Lowered_toLowerCase in Hl. now subst.
  - intros H. exists (toLowerCase s). split; [now apply Lowered_toLowerCase | exact H].
Qed.

Lemma SpecTermFound_TermFound (p : Product) (term : string) :
  SpecTermFound p term <-> TermFound p term.
Proof.
  unfold SpecTermFound, TermFound. rewrite !Lowered_OccursIn.
  assert (H : (exists words word,
                  NameWordsSpec (orEmpty (nombre p)) words /\ In word words
                  /\ Begins term word)
              <-> (exists word, In word (nameWordsOf p) /\ Begins term word)).
  { split.
    - intros (words & word & Hw & Hin & Hb). apply NameWordsSpec_nameWordsOf in Hw.
      subst. now exists word.
    - intros (word & Hin & Hb). exists (nameWordsOf p), word.
      split; [now apply NameWordsSpec_nameWordsOf | auto]. }
  rewrite H. reflexivity.
Qed.

(** The search test of the code is the search test as described. *)
Lemma searchMatches_SpecSearchKeeps (text : string) (p : Product) :
  searchMatches text p = true <-> SpecSearchKeeps text p.
Proof.
  rewrite searchMatches_spec. unfold SpecSearchKeeps. split.
  - intros H. exists (searchTermsOf text).
    split; [now apply SearchTermsSpec_searchTermsOf|].
    eapply Forall_impl; [|exact H]. intros t. apply SpecTermFound_TermFound.
  - intros (terms & Ht & H). apply SearchTermsSpec_searchTermsOf in Ht. subst.
    eapply Forall_impl; [|exact H]. intros t. apply SpecTermFound_TermFound.
Qed.

(* ================================================================== *)
(** ** Relative position in a list *)

Lemma Before_In {A : Type} (l : list A) (a b : A) :
  Before l a b -> In a l /\ In b l.
Proof.
  intros (l1 & l2 & l3 & ->). split.
  - apply in_or_app. right. now left.
  - apply in_or_app. right. right. apply in_or_app. right. now left.
Qed.

Lemma Before_cons {A : Type} (x : A) (l : list A) (a b : A) :
  Before (x :: l) a b <-> (x = a /\ In b l) \/ Before l a b.
Proof.
  split.
  - intros (l1 & l2 & l3 & H). destruct l1 as [|y l1]; simpl in H.
    + injection H as -> ->. left. split; [reflexivity|].
      apply in_or_app. right. now left.
    + injection H as -> ->. right. now exists l1, l2, l3.
  - intros [[-> Hb] | (l1 & l2 & l3 & ->)].
    + destruct (in_split _ _ Hb) as (l2 & l3 & ->). now exists [], l2, l3.
    + now exists (x :: l1), l2, l3.
Qed.

Lemma Before_filter {A : Type} (f : A -> bool) (l : list A) (a b : A) :
  Before (filter f l) a b <-> Before l a b /\ f a = true /\ f b = true.
Proof.
  induction l as [|x l IH]; simpl.
  - split.
    + intros (l1 & l2 & l3 & H). destruct l1; discriminate.
    + intros [(l1 & l2 & l3 & H) _]. destruct l1; discriminate.
  - destruct (f x) eqn:Hx.
    + rewrite !Before_cons, IH, filter_In. split.
      * intros [[-> [Hb Hfb]] | (H & Ha & Hb)]; auto.
      * intros [[[-> Hb] | H] [Ha Hb']]; auto.
    + rewrite Before_cons, IH. split.
      * intros (H & Ha & Hb). auto.
      * intros [[[-> Hb] | H] [Ha Hb']]; [congruence | auto].
Qed.

Lemma StronglySorted_Before {A : Type} (R : A -> A -> Prop) (l : list A) (a b : A) :
  StronglySorted R l -> Before l a b -> R a b.
Proof.
  induction 1 as [|x l Hs IH Hall]; intros Hb.
  - destruct Hb as (l1 & l2 & l3 & H). destruct l1; discriminate.
  - apply Before_cons in Hb. destruct Hb as [[-> Hb] | Hb]; [|auto].
    rewrite Forall_forall in Hall. auto.
Qed.

Lemma In_Before_or {A : Type} (l : list A) (a b : A) :
  In a l -> In b l -> a <> b -> Before l a b \/ Before l b a.
Proof.
  induction l as [|x l IH]; simpl; [tauto|].
  intros [-> | Ha] [-> | Hb] Hne; try congruence.
  - left. apply Before_cons. auto.
  - right. apply Before_cons. auto.
  - destruct (IH Ha Hb Hne); [left | right]; apply Before_cons; auto.
Qed.

(* ================================================================== *)
(** ** Sorting through a comparator that compares integer keys *)

Section SortTheory.
Context {A : Type} (key : A -> Z) (cmp : A -> A -> number).
Hypothesis cmp_key : forall a b, gtb (cmp a b) (Fin 0) = (key b <? key a).

Lemma insertSorted_perm (x : A) (l : list A) :
  Permutation (insertSorted cmp x l) (x :: l).
Proof.
  induction l as [|y l IH]; simpl; [reflexivity|].
  destruct (gtb (cmp x y) (Fin 0)); [|reflexivity].
  rewrite IH. apply perm_swap.
Qed.

Lemma sort_perm (l : list A) : Permutation (sort cmp l) l.
Proof.
  induction l as [|x l IH]; simpl; [reflexivity|].
  rewrite insertSorted_perm. now constructor.
Qed.

Lemma insertSorted_sorted (x : A) (l : list A) :
  StronglySorted (keyLe key) l -> StronglySorted (keyLe key) (insertSorted cmp x l).
Proof.
  induction 1 as [|y l Hs IH Hall]; simpl.
  - constructor; constructor.
  - rewrite cmp_key. destruct (key y <? key x) eqn:E.
    + apply Z.ltb_lt in E. constructor; [exact IH|].
      rewrite (insertSorted_perm x l). constructor; [unfold keyLe; lia | exact Hall].
    + apply Z.ltb_ge in E. constructor; [now constructor|].
      constructor; [exact E|].
      rewrite Forall_forall in Hall |- *. intros z Hz.
      specialize (Hall z Hz). unfold keyLe in *. lia.
Qed.

Lemma sort_sorted (l : list A) : StronglySorted (keyLe key) (sort cmp l).
Proof.
  induction l as [|x l IH]; simpl; [constructor | now apply insertSorted_sorted].
Qed.

Lemma sort_of_sorted (l : list A) :
  StronglySorted (keyLe key) l -> sort cmp l = l.
Proof.
  induction 1 as [|x l Hs IH Hall]; simpl; [reflexivity|].
  rewrite IH. destruct l as [|y l]; simpl; [reflexivity|].
  rewrite cmp_key. inversion Hall as [|? ? Hxy _]; subst.
  unfold keyLe in Hxy. destruct (key y <? key x) eqn:E; [|reflexivity].
  apply Z.ltb_lt in E. lia.
Qed.

Lemma sort_idempotent (l : list A) : sort cmp (sort cmp l) = sort cmp l.
Proof. apply sort_of_sorted, sort_sorted. Qed.

Lemma insertSorted_same_key (k : Z) (x : A) (l : list A) :
  filter (fun a => key a =? k) (insertSorted cmp x l)
  = filter (fun a => key a =? k) (x :: l).
Proof.
  induction l as [|y l IH]; [reflexivity|].
  cbn [insertSorted]. rewrite cmp_key.
  destruct (key y <? key x) eqn:E; [|reflexivity].
  apply Z.ltb_lt in E. cbn [filter] in *. rewrite IH.
  destruct (key y =? k) eqn:Ey, (key x =? k) eqn:Ex; try reflexivity.
  apply Z.eqb_eq in Ey, Ex. lia.
Qed.

Lemma sort_same_key (k : Z) (l : list A) :
  filter (fun a => key a =? k) (sort cmp l) = filter (fun a => key a =? k) l.
Proof.
  induction l as [|x l IH]; [reflexivity|].
  cbn [sort]. rewrite insertSorted_same_key. cbn [filter]. now rewrite IH.
Qed.

(** Two sorted lists that agree on the elements of each key, in their
    order, are the same list. *)
Lemma sorted_same_key_eq (s s' : list A) :
  StronglySorted (keyLe key) s -> StronglySorted (keyLe key) s' ->
  (forall k, filter (fun a => key a =? k) s = filter (fun a => key a =? k) s') ->
  s = s'.
Proof.
  intros Hs. revert s'.
  induction Hs as [|x s Hs IH Hall]; intros s' Hs' Hf.
  - destruct s' as [|y s']; [reflexivity|].
    specialize (Hf (key y)). cbn [filter] in Hf. rewrite Z.eqb_refl in Hf. discriminate.
  - destruct Hs' as [|y s' Hs' Hall'].
    + specialize (Hf (key x)). cbn [filter] in Hf. rewrite Z.eqb_refl in Hf. discriminate.
    + assert (Hx : In x (y :: s')).
      { pose proof (Hf (key x)) as H. cbn [filter] in H. rewrite Z.eqb_refl in H.
        assert (G : In x (filter (fun a => key a =? key x) (y :: s'))).
        { cbn [filter]. rewrite <- H. now left. }
        apply filter_In in G. tauto. }
      assert (Hy : In y (x :: s)).
      { pose proof (Hf (key y)) as H. cbn [filter] in H.
        rewrite (Z.eqb_refl (key y)) in H.
        assert (G : In y (filter (fun a => key a =? key y) (x :: s))).
        { cbn [filter]. rewrite H. now left. }
        apply filter_In in G. tauto. }
      rewrite Forall_forall in Hall, Hall'.
      assert (Hk : key x = key y).
      { destruct Hx as [<- | Hx]; [reflexivity|].
        destruct Hy as [<- | Hy]; [reflexivity|].
        specialize (Hall y Hy). specialize (Hall' x Hx). unfold keyLe in *. lia. }
      pose proof (Hf (key x)) as H. cbn [filter] in H.
      rewrite <- Hk, Z.eqb_refl in H. injection H as <- _.
      f_equal. apply IH; [exact Hs'|].
      intros k. specialize (Hf k). cbn [filter] in Hf.
      destruct (key x =? k); [now injection Hf | exact Hf].
Qed.

(** Whatever sorts by key and keeps ties in place returns what [sort]
    returns. *)
Lemma stable_sort_unique (l s : list A) :
  StronglySorted (keyLe key) s ->
  (forall k, filter (fun a => key a =? k) s = filter (fun a => key a =? k) l) ->
  s = sort cmp l.
Proof.
  intros Hs Hf. apply sorted_same_key_eq; [exact Hs | apply sort_sorted|].
  intros k. now rewrite Hf, sort_same_key.
Qed.

(** Stability: elements of equal key keep their relative position. *)
Lemma sort_stable (l : list A) (a b : A) :
  key a = key b -> Before l a b -> Before (sort cmp l) a b.
Proof.
  intros Hk Hb.
  assert (H : Before (filter (fun c => key c =? key a) (sort cmp l)) a b).
  { rewrite sort_same_key. apply Before_filter. repeat split; auto.
    - apply Z.eqb_refl.
    - apply Z.eqb_eq. auto. }
  now apply Before_filter in H.
Qed.

Lemma sort_Before_le (l : list A) (a b : A) :
  Before (sort cmp l) a b -> key a <= key b.
Proof. apply (StronglySorted_Before (keyLe key)), sort_sorted. Qed.

(** Elements of different keys stand in the order of their keys. *)
Lemma sort_Before_lt (l : list A) (a b : A) :
  In a l -> In b l -> key a < key b ->
  Before (sort cmp l) a b /\ ~ Before (sort cmp l) b a.
Proof.
  intros Ha Hb Hlt.
  assert (Hn : ~ Before (sort cmp l) b a).
  { intros H. apply sort_Before_le in H. lia. }
  split; [|exact Hn].
  destruct (In_Before_or (sort cmp l) a b) as [H | H]; auto.
  - apply (Permutation_in a (Permutation_sym (sort_perm l)) Ha).
  - apply (Permutation_in b (Permutation_sym (sort_perm l)) Hb).
  - intros ->. lia.
  - contradiction.
Qed.

End SortTheory.

(* ================================================================== *)
(** ** The price parser against the reading of the specification *)

Lemma removeChar_dropPriceMarks (s : string) :
  removeChar "." (removeChar "$" s) = dropPriceMarks s.
Proof.
  induction s as [|c s IH]; simpl; [reflexivity|].
  destruct (Ascii.eqb c "$") eqn:E1; simpl; [exact IH|].
  destruct (Ascii.eqb c ".") eqn:E2; simpl; now rewrite IH.
Qed.

Lemma trimStart_head (s : string) :
  match trimStart s with
  | EmptyString => True
  | String c _ => isWhiteSpace c = false
  end.
Proof.
  induction s as [|c s IH]; simpl; [exact I|].
  destruct (isWhiteSpace c) eqn:E; [exact IH | exact E].
Qed.

Lemma trimEnd_cons (c : ascii) (s : string) :
  isWhiteSpace c = false -> trimEnd (String c s) = String c (trimEnd s).
Proof. intros H. simpl. rewrite H. now destruct (trimEnd s). Qed.

Lemma trimStart_trim (s : string) : trimStart (trim s) = trim s.
Proof.
  unfold trim. pose proof (trimStart_head s) as H.
  destruct (trimStart s) as [|c r]; [reflexivity|].
  rewrite (trimEnd_cons c r H). simpl. now rewrite H.
Qed.

Lemma parseDigits_leading (s : string) (acc : Z) (seen : bool) :
  parseDigits acc seen s
  = match leadingDigits s with
    | [] => if seen then Some acc else None
    | ds => Some (acc * 10 ^ Z.of_nat (List.length ds) + positional ds)
    end.
Proof.
  revert acc seen.
  induction s as [|c s IH]; intros acc seen; cbn [parseDigits leadingDigits];
    [reflexivity|].
  destruct (isDigit c); [|reflexivity].
  rewrite IH. destruct (leadingDigits s) as [|d ds].
  - cbn [List.length positional]. f_equal.
    change (Z.of_nat 1) with 1. change (Z.of_nat 0) with 0.
    rewrite Z.pow_1_r, Z.pow_0_r. lia.
  - cbv zeta iota. remember (d :: ds) as tl eqn:Etl. cbn [List.length positional].
    f_equal.
    rewrite Nat2Z.inj_succ, Z.pow_succ_r by lia. ring.
Qed.

Lemma pow53_lt_pow1024 : 2 ^ 53 < 2 ^ 1024.
Proof. apply Z.pow_lt_mono_r; lia. Qed.

(** The three outcomes of [roundInteger]: the integer itself, an infinity,
    or a finite number of the same sign. *)
Lemma roundInteger_cases (z : Z) :
  (Z.abs z < 2 ^ 53 /\ roundInteger z = Fin z)
  \/ (2 ^ 53 <= Z.abs z /\
      exists m, 0 < m /\
        ((2 ^ 1024 <= m /\ roundInteger z = Inf (z <? 0))
         \/ (m < 2 ^ 1024 /\ roundInteger z = Fin (Z.sgn z * m)))).
Proof.
  unfold roundInteger. set (B := 2 ^ 1024). set (P := 2 ^ 53).
  destruct (Z.ltb_spec (Z.abs z) P) as [Hs | Hb]; [left; auto|].
  right. split; [exact Hb|].
  set (n := Z.abs z) in *. set (e := Z.log2 n - 52).
  set (q := n / 2 ^ e).
  match goal with
  | |- context [if ?b then q + 1 else q] => set (q' := if b then q + 1 else q)
  end.
  assert (Hn : 0 < n)
    by (subst P; assert (0 < 2 ^ 53) by (apply Z.pow_pos_nonneg; lia); lia).
  assert (Hlog : 53 <= Z.log2 n) by (apply Z.log2_le_pow2; [exact Hn | exact Hb]).
  assert (He : 0 <= e) by (subst e; lia).
  assert (Hpe : 0 < 2 ^ e) by (apply Z.pow_pos_nonneg; lia).
  assert (Hq : 1 <= q).
  { subst q. apply Z.div_le_lower_bound; [exact Hpe|].
    rewrite Z.mul_1_r. transitivity (2 ^ Z.log2 n).
    - apply Z.pow_le_mono_r; subst e; lia.
    - apply Z.log2_spec. exact Hn. }
  assert (Hq' : 1 <= q')
    by (subst q'; match goal with |- context [if ?b then _ else _] => destruct b end; lia).
  exists (q' * 2 ^ e). split; [nia|].
  destruct (Z.leb_spec B (q' * 2 ^ e)); [left | right]; auto.
Qed.

Lemma roundInteger_bounded (z : Z) : bounded (roundInteger z).
Proof.
  destruct (roundInteger_cases z) as [[Hs ->] | [Hb (m & Hm & [[_ ->] | [Hlt ->]])]];
    cbn [bounded]; auto.
  - pose proof pow53_lt_pow1024. lia.
  - destruct (Z.sgn_spec z) as [[_ ->]|[[_ ->]|[_ ->]]]; lia.
Qed.

Lemma roundInteger_gt0 (z : Z) : gtb (roundInteger z) (Fin 0) = (0 <? z).
Proof.
  assert (H53 : 0 < 2 ^ 53) by (apply Z.pow_pos_nonneg; lia).
  destruct (roundInteger_cases z) as [[Hs ->] | [Hb (m & Hm & [[_ ->] | [Hlt ->]])]];
    cbn [gtb]; auto.
  - destruct (Z.ltb_spec z 0), (Z.ltb_spec 0 z); cbn; auto; lia.
  - destruct (Z.ltb_spec 0 (Z.sgn z * m)), (Z.ltb_spec 0 z); auto; exfalso.
    + assert (Z.sgn z <= 0)
        by (destruct (Z.sgn_spec z) as [[? ->]|[[? ->]|[? ->]]]; lia).
      nia.
    + assert (Z.sgn z = 1) by (apply Z.sgn_pos; lia). nia.
Qed.

Lemma roundInteger_small (z : Z) : Z.abs z < 2 ^ 53 -> roundInteger z = Fin z.
Proof.
  intros H. unfold roundInteger.
  destruct (Z.ltb_spec (Z.abs z) (2 ^ 53)); [reflexivity | lia].
Qed.

Lemma roundInteger_huge (z : Z) : 2 ^ 1024 <= z -> roundInteger z = Inf false.
Proof.
  intros H. pose proof pow53_lt_pow1024 as HP.
  unfold roundInteger. rewrite (Z.abs_eq z) by lia.
  destruct (Z.ltb_spec z (2 ^ 53)); [lia|].
  set (e := Z.log2 z - 52). set (q := z / 2 ^ e).
  match goal with
  | |- context [if ?b then q + 1 else q] => set (q' := if b then q + 1 else q)
  end.
  assert (Hz : 0 < z) by lia.
  assert (Hlog : 1024 <= Z.log2 z) by (apply Z.log2_le_pow2; lia).
  assert (He : 0 <= e) by (subst e; lia).
  assert (Hpe : 0 < 2 ^ e) by (apply Z.pow_pos_nonneg; lia).
  assert (Hq : 2 ^ 52 <= q).
  { subst q. apply Z.div_le_lower_bound; [exact Hpe|].
    rewrite Z.mul_comm, <- Z.pow_add_r by lia.
    replace (52 + e) with (Z.log2 z) by (subst e; lia).
    apply Z.log2_spec. exact Hz. }
  assert (Hm : 2 ^ 1024 <= q' * 2 ^ e).
  { transitivity (2 ^ Z.log2 z); [apply Z.pow_le_mono_r; lia|].
    replace (Z.log2 z) with (52 + e) by (subst e; lia). rewrite Z.pow_add_r by lia.
    assert (q <= q')
      by (subst q'; match goal with |- context [if ?b then _ else _] => destruct b end; lia).
    apply Z.mul_le_mono_nonneg_r; lia. }
  destruct (Z.leb_spec (2 ^ 1024) (q' * 2 ^ e)); [|lia].
  destruct (Z.ltb_spec z 0); [lia | reflexivity].
Qed.

Lemma rank_injective (x y : number) :
  bounded x -> bounded y -> rank x = rank y -> x = y.
Proof.
  assert (HB : 0 < 2 ^ 1024) by (apply Z.pow_pos_nonneg; lia).
  destruct x as [|[]|x], y as [|[]|y]; cbn [bounded rank]; intros Hx Hy H;
    try contradiction; try reflexivity; try lia.
  now subst.
Qed.

(** [x > y] is the order of the ranks. *)
Lemma gtb_rank (x y : number) :
  bounded x -> bounded y -> gtb x y = (rank y <? rank x).
Proof.
  assert (HB : 0 < 2 ^ 1024) by (apply Z.pow_pos_nonneg; lia).
  destruct x as [|[]|x], y as [|[]|y]; cbn [bounded rank gtb negb andb];
    intros Hx Hy; try contradiction; try reflexivity; symmetry;
    first [apply Z.ltb_lt; lia | apply Z.ltb_ge; lia].
Qed.

(** The sign of [x - y] is the order of the ranks: the comparator of the
    price order is consistent. *)
Lemma sub_gt0_rank (x y : number) :
  bounded x -> bounded y -> gtb (sub x y) (Fin 0) = (rank y <? rank x).
Proof.
  assert (HB : 0 < 2 ^ 1024) by (apply Z.pow_pos_nonneg; lia).
  destruct x as [|[]|x], y as [|[]|y]; cbn [bounded rank sub Bool.eqb gtb negb];
    intros Hx Hy; try contradiction;
    try (symmetry; first [apply Z.ltb_lt; lia | apply Z.ltb_ge; lia]).
  rewrite roundInteger_gt0.
  destruct (Z.ltb_spec 0 (x - y)), (Z.ltb_spec y x); try reflexivity; lia.
Qed.

Lemma parseInt_trimmed (s : string) :
  trimStart s = s ->
  parseInt s = match specReadInteger s with Some z => roundInteger z | None => NaN end.
Proof.
  intros H. unfold parseInt, specReadInteger. rewrite H.
  assert (G : forall sign body,
             match parseDigits 0 false body with
             | None => NaN
             | Some m => roundInteger (sign * m)
             end
             = match match leadingDigits body with
                     | [] => None
                     | ds => Some (sign * positional ds)
                     end with
               | Some z => roundInteger z
               | None => NaN
               end).
  { intros sign body. rewrite parseDigits_leading.
    destruct (leadingDigits body); reflexivity. }
  destruct s as [|c r]; [reflexivity|].
  destruct c as [[] [] [] [] [] [] [] []]; apply G.
Qed.

Lemma isNaN_roundInteger (z : Z) : isNaN (roundInteger z) = false.
Proof.
  pose proof (roundInteger_bounded z) as H. now destruct (roundInteger z).
Qed.

Lemma parsePriceString_spec (raw : option string) :
  parsePriceString (ofField raw) = roundInteger (specParsePrice raw).
Proof.
  destruct raw as [s|]; [|reflexivity].
  unfold parsePriceString, specParsePrice. cbn [ofField truthy toString].
  destruct (String.eqb_spec s EmptyString) as [-> | Hs]; [reflexivity|].
  cbn [negb]. rewrite removeChar_dropPriceMarks, (parseInt_trimmed _ (trimStart_trim _)).
  destruct (specReadInteger (trim (dropPriceMarks s))) as [z|]; cbv zeta.
  - now rewrite isNaN_roundInteger.
  - reflexivity.
Qed.

Lemma getReferencePrice_spec (accessory : Product -> bool) (p : Product) :
  getReferencePrice accessory p = specReferencePrice accessory p.
Proof.
  unfold getReferencePrice, specReferencePrice. now rewrite parsePriceString_spec.
Qed.

Lemma getReferencePrice_bounded (accessory : Product -> bool) (p : Product) :
  bounded (getReferencePrice accessory p).
Proof.
  rewrite getReferencePrice_spec. unfold specReferencePrice.
  pose proof (roundInteger_bounded (specParsePrice (precio3 p))) as H.
  destruct (accessory p); [|exact H].
  destruct (roundInteger (specParsePrice (precio3 p))) as [|neg|z]; cbn [mul].
  - contradiction.
  - exact I.
  - apply roundInteger_bounded.
Qed.

Lemma priceRank_eq (accessory : Product -> bool) (a b : Product) :
  getReferencePrice accessory a = getReferencePrice accessory b
  <-> priceRank accessory a = priceRank accessory b.
Proof.
  unfold priceRank. split; [now intros ->|].
  apply rank_injective; apply getReferencePrice_bounded.
Qed.

Lemma comparePrice_asc (accessory : Product -> bool) (a b : Product) :
  gtb (comparePrice accessory SortAsc a b) (Fin 0)
  = (priceRank accessory b <? priceRank accessory a).
Proof.
  unfold comparePrice, priceRank.
  apply sub_gt0_rank; apply getReferencePrice_bounded.
Qed.

Lemma comparePrice_desc (accessory : Product -> bool) (a b : Product) :
  gtb (comparePrice accessory SortDesc a b) (Fin 0)
  = (- priceRank accessory b <? - priceRank accessory a).
Proof.
  unfold comparePrice, priceRank.
  rewrite sub_gt0_rank by apply getReferencePrice_bounded.
  destruct (Z.ltb_spec (rank (getReferencePrice accessory a))
              (rank (getReferencePrice accessory b)));
    symmetry; [apply Z.ltb_lt | apply Z.ltb_ge]; lia.
Qed.

(* ================================================================== *)
(** ** Sets in insertion order *)

Lemma filter_filter_and {A : Type} (f g : A -> bool) (l : list A) :
  filter f (filter g l) = filter (fun x => g x && f x) l.
Proof.
  induction l as [|x l IH]; simpl; [reflexivity|].
  destruct (g x); simpl; [destruct (f x)|]; now rewrite IH.
Qed.

Section SetTheory.
Context {A : Type} (eqbA : A -> A -> bool).
Hypothesis eqbA_eq : forall a b, eqbA a b = true <-> a = b.

Lemma setHas_In (s : list A) (x : A) : setHas eqbA s x = true <-> In x s.
Proof.
  unfold setHas. rewrite existsb_exists. split.
  - intros [y [Hy E]]. apply eqbA_eq in E. now subst.
  - intros H. exists x. split; [exact H | now apply eqbA_eq].
Qed.

Lemma fold_setAdd (l s : list A) :
  fold_left (setAdd eqbA) l s
  = s ++ filter (fun y => negb (setHas eqbA s y)) (firstSeen eqbA l).
Proof.
  revert s. induction l as [|x l IH]; intros s; cbn [fold_left firstSeen filter].
  - now rewrite app_nil_r.
  - rewrite IH. unfold setAdd. destruct (setHas eqbA s x) eqn:E; cbn [negb].
    + f_equal. rewrite filter_filter_and. apply filter_ext. intros y.
      destruct (eqbA y x) eqn:Eyx; cbn [negb andb]; [|reflexivity].
      apply eqbA_eq in Eyx. subst y. now rewrite E.
    + rewrite <- app_assoc. cbn [app]. do 2 f_equal.
      rewrite filter_filter_and. apply filter_ext. intros y.
      unfold setHas. rewrite existsb_app. cbn [existsb].
      rewrite orb_false_r, negb_orb. apply andb_comm.
Qed.

Lemma newSet_firstSeen (l : list A) : newSet eqbA l = firstSeen eqbA l.
Proof.
  unfold newSet. rewrite fold_setAdd. cbn [app].
  apply filter_all. reflexivity.
Qed.

Lemma firstSeen_In (l : list A) (x : A) : In x (firstSeen eqbA l) <-> In x l.
Proof.
  induction l as [|y l IH]; cbn [firstSeen In]; [tauto|].
  rewrite filter_In, IH. split.
  - intros [H | [H _]]; auto.
  - intros [H | H]; [now left|].
    destruct (eqbA x y) eqn:E.
    + left. symmetry. now apply eqbA_eq.
    + right. split; [exact H | reflexivity].
Qed.

Lemma firstSeen_NoDup (l : list A) : NoDup (firstSeen eqbA l).
Proof.
  induction l as [|y l IH]; cbn [firstSeen]; constructor.
  - rewrite filter_In. intros [_ H].
    assert (E : eqbA y y = true) by now apply eqbA_eq.
    now rewrite E in H.
  - now apply NoDup_filter.
Qed.

End SetTheory.

Lemma fieldEqb_eq (a b : option string) : fieldEqb a b = true <-> a = b.
Proof.
  destruct a as [x|], b as [y|]; simpl; try (split; congruence).
  rewrite String.eqb_eq. split; congruence.
Qed.

Lemma fieldTruthy_spec (f : option string) :
  fieldTruthy f = true <-> exists s, f = Some s /\ s <> "".
Proof.
  unfold fieldTruthy. destruct f as [s|]; cbn [ofField truthy].
  - rewrite negb_true_iff. split.
    + intros H. exists s. split; [reflexivity|]. intros ->. discriminate.
    + intros [s' [[= <-] H]]. now apply String.eqb_neq.
  - split; [discriminate | intros [s [H _]]; discriminate].
Qed.

(* ================================================================== *)
(** ** The stages of the pipeline *)

Lemma trimStart_blank (s : string) :
  trimStart s = EmptyString <-> allWhiteSpace s = true.
Proof.
  induction s as [|c s IH]; simpl; [tauto|].
  destruct (isWhiteSpace c); simpl; [exact IH|]. split; discriminate.
Qed.

Lemma trim_blank (s : string) : trim s = EmptyString <-> allWhiteSpace s = true.
Proof.
  rewrite <- trimStart_blank. unfold trim.
  pose proof (trimStart_head s) as H.
  destruct (trimStart s) as [|c r]; [tauto|].
  rewrite (trimEnd_cons c r H). split; discriminate.
Qed.

Lemma validSku_spec (p : Product) : validSku p = true <-> SkuUsable p.
Proof.
  unfold validSku, SkuUsable. destruct (sku p) as [s|].
  - rewrite andb_true_iff, !negb_true_iff. split.
    + intros [_ H]. exists s. split; [reflexivity|].
      destruct (allWhiteSpace s) eqn:E; [|reflexivity].
      apply trim_blank in E. rewrite E in H. discriminate.
    + intros [s' [[= <-] H]]. split.
      * destruct s; [discriminate | reflexivity].
      * destruct (String.eqb_spec (trim s) EmptyString) as [E|]; [|reflexivity].
        apply trim_blank in E. congruence.
  - split; [discriminate | intros [s [H _]]; discriminate].
Qed.

Lemma inStock_spec (p : Product) : inStock p = true <-> StockPositive p.
Proof.
  unfold inStock, stockNum, StockPositive. split.
  - destruct (stock p) as [| |b|n|s]; try discriminate.
    intros H. exists n. split; [reflexivity|].
    destruct n as [|[]|z]; try discriminate.
    + now left.
    + right. exists z. split; [reflexivity|]. now apply Z.ltb_lt.
  - intros [n [-> [-> | [z [-> Hz]]]]]; [reflexivity|]. now apply Z.ltb_lt.
Qed.

Lemma Subsequence_refl {A : Type} (l : list A) : Subsequence l l.
Proof. induction l; constructor; assumption. Qed.

Lemma Subsequence_trans {A : Type} (l1 l2 l3 : list A) :
  Subsequence l1 l2 -> Subsequence l2 l3 -> Subsequence l1 l3.
Proof.
  intros H12 H23. revert l1 H12.
  induction H23 as [|x s l H IH|x s l H IH]; intros l1 H12.
  - exact H12.
  - constructor. now apply IH.
  - inversion H12; subst; constructor; now apply IH.
Qed.

Lemma Subsequence_filter {A : Type} (f : A -> bool) (l : list A) :
  Subsequence (filter f l) l.
Proof.
  induction l as [|x l IH]; simpl; [constructor|].
  destruct (f x); constructor; exact IH.
Qed.

Lemma Subsequence_In {A : Type} (s l : list A) (x : A) :
  Subsequence s l -> In x s -> In x l.
Proof.
  induction 1 as [|y s l H IH|y s l H IH]; simpl; intuition.
Qed.

Lemma stockStage_sub (st : FilterState) (l : list Product) :
  Subsequence (stockStage st l) l.
Proof.
  unfold stockStage. destruct (negb (showOutOfStock st));
    [apply Subsequence_filter | apply Subsequence_refl].
Qed.

Lemma categoryStage_sub (st : FilterState) (l : list Product) :
  Subsequence (categoryStage st l) l.
Proof.
  unfold categoryStage. destruct (negb (selectedCategory st =? Todos)%string);
    [apply Subsequence_filter | apply Subsequence_refl].
Qed.

Lemma brandStage_sub (st : FilterState) (l : list Product) :
  Subsequence (brandStage st l) l.
Proof.
  unfold brandStage. destruct (negb (selectedBrand st =? Todos)%string);
    [apply Subsequence_filter | apply Subsequence_refl].
Qed.

Lemma searchStage_sub (st : FilterState) (l : list Product) :
  Subsequence (searchStage st l) l.
Proof.
  unfold searchStage. destruct (negb (searchTerm st =? "")%string);
    [apply Subsequence_filter | apply Subsequence_refl].
Qed.

Lemma candidates_sub_stock (products : list Product) (st : FilterState) :
  Subsequence (candidates products st) (stockStage st (skuStage products)).
Proof.
  unfold candidates.
  eapply Subsequence_trans; [apply searchStage_sub|].
  eapply Subsequence_trans; [apply brandStage_sub|].
  apply categoryStage_sub.
Qed.

Lemma candidates_sub (products : list Product) (st : FilterState) :
  Subsequence (candidates products st) products.
Proof.
  eapply Subsequence_trans; [apply candidates_sub_stock|].
  eapply Subsequence_trans; [apply stockStage_sub|].
  apply Subsequence_filter.
Qed.

Lemma priceStage_perm (accessory : Product -> bool) (st : FilterState) (l : list Product) :
  Permutation (priceStage accessory st l) l.
Proof.
  unfold priceStage. destruct (priceSort st); [reflexivity | apply sort_perm ..].
Qed.

(* ================================================================== *)
(** ** The properties of the specification *)

(** C1. On the three products of the worked scenario, with out-of-stock
    products hidden, the search text "avanzado", both selectors at their
    sentinel and no price order, the filtered result is exactly the product
    of SKU "A1"; this holds on the records as given and on the normalised
    ones, whatever the accessory predicate. *)
Theorem scenario_result (accessory : Product -> bool) :
  filteredProducts accessory scenarioProducts scenarioState = [productA1]
  /\ filteredProducts accessory (normalizeProducts scenarioProducts) scenarioState
     = [productA1]
  /\ sku productA1 = Some "A1".
Proof. repeat split. Qed.

(** C2. With a search text that is not empty, the search stage keeps a
    product exactly when every term of the text (the text in lower case,
    trimmed, cut at white space) occurs in the lower-case SKU, or begins a
    word of the name (the name in lower case, its characters [- / ( )] made
    spaces, cut at white space), or occurs in the lower-case game level, or
    occurs in the lower-case year. A product with "avanzado" in its level
    and "2026" in its year passes the search "avanzado 2026". *)
Theorem search_stage_spec (st : FilterState) (l : list Product) (p : Product) :
  searchTerm st <> "" ->
  (In p (searchStage st l) <-> In p l /\ SpecSearchKeeps (searchTerm st) p)
  /\ (searchTerm st = "avanzado 2026" ->
      (exists low, Lowered (orEmpty (nivelDeJuego p)) low /\ OccursIn "avanzado" low) ->
      (exists low, Lowered (orEmpty (año p)) low /\ OccursIn "2026" low) ->
      In p l -> In p (searchStage st l)).
Proof.
  intros Hne.
  assert (E : searchStage st l = filter (searchMatches (searchTerm st)) l).
  { unfold searchStage.
    destruct (String.eqb_spec (searchTerm st) ""); [contradiction | reflexivity]. }
  rewrite E. split.
  - rewrite filter_In, searchMatches_SpecSearchKeeps. reflexivity.
  - intros Ht Hn Ha Hin. rewrite filter_In, searchMatches_spec, Ht. split; [exact Hin|].
    apply Lowered_OccursIn in Hn, Ha.
    change (searchTermsOf "avanzado 2026") with ["avanzado"; "2026"].
    repeat constructor; unfold TermFound; tauto.
Qed.

Lemma search_stage_spec_witness :
  In productA1
    (searchStage (setSearchTerm "avanzado 2026" scenarioState) [productB2; productA1])
  /\ In productNandu
       (searchStage
          (setSearchTerm
             (String (ascii_of_N 241) ("and" ++ String (ascii_of_N 250)
                (String nbsp "PRO  inter")))
             scenarioState)
          [productB2; productNandu]).
Proof.
  split.
  - apply (search_stage_spec (setSearchTerm "avanzado 2026" scenarioState)
             [productB2; productA1] productA1).
    + discriminate.
    + reflexivity.
    + exists "avanzado". split; [repeat constructor | exists "", ""; reflexivity].
    + exists "2026". split; [repeat constructor | exists "", ""; reflexivity].
    + simpl. auto.
  - destruct (search_stage_spec
                (setSearchTerm
                   (String (ascii_of_N 241) ("and" ++ String (ascii_of_N 250)
                      (String nbsp "PRO  inter")))
                   scenarioState)
                [productB2; productNandu] productNandu) as [Hiff _].
    + discriminate.
    + apply Hiff. split; [right; left; reflexivity|].
      apply searchMatches_SpecSearchKeeps. vm_compute. reflexivity.
Defined.

(** C3, as the code has it. The reference price of a product is the
    number read from its raw price text ([$] and [.] dropped, the leading
    decimal integer taken, 0 when there is none), doubled when the accessory
    predicate holds of the product and unchanged otherwise. The number read
    is the integer itself when its magnitude is below 2^53, and the doubled
    price is exact when it is below 2^52; beyond, each is the nearest number
    the language has. "$1.234" reads as 1234, and "$500" gives 1000 under
    the predicate and 500 without it. *)
Theorem reference_price_spec (accessory : Product -> bool) (p : Product) :
  getReferencePrice accessory p
  = (let base := roundInteger (specParsePrice (precio3 p)) in
     if accessory p then mul base (Fin 2) else base)
  /\ (Z.abs (specParsePrice (precio3 p)) < 2 ^ 52 ->
      getReferencePrice accessory p
      = Fin (if accessory p then 2 * specParsePrice (precio3 p)
             else specParsePrice (precio3 p)))
  /\ parsePriceString (Str "$1.234") = Fin 1234
  /\ (forall s, specReadInteger (trim (dropPriceMarks s)) = None ->
                parsePriceString (Str s) = Fin 0)
  /\ (precio3 p = Some "$500" ->
      getReferencePrice accessory p = Fin (if accessory p then 1000 else 500)).
Proof.
  split; [apply getReferencePrice_spec|].
  split.
  { intros H. rewrite getReferencePrice_spec. unfold specReferencePrice. cbv zeta.
    assert (H52 : 2 ^ 52 < 2 ^ 53) by (apply Z.pow_lt_mono_r; lia).
    rewrite (roundInteger_small (specParsePrice (precio3 p))) by lia.
    destruct (accessory p); [|reflexivity].
    cbn [mul]. rewrite roundInteger_small; [f_equal; lia|].
    replace (2 ^ 53) with (2 * 2 ^ 52) by reflexivity. lia. }
  split; [reflexivity|].
  split.
  - intros s H. change (Str s) with (ofField (Some s)).
    rewrite parsePriceString_spec. cbn [specParsePrice]. now rewrite H.
  - intros H. unfold getReferencePrice. rewrite H.
    destruct (accessory p); reflexivity.
Qed.

Lemma reference_price_spec_witness :
  parsePriceString (Str "consultar") = Fin 0
  /\ getReferencePrice (fun _ => true) productReturned = Fin 1000
  /\ getReferencePrice (fun _ => false) productReturned = Fin 500
  /\ getReferencePrice accessoriesOnly productA1 = Fin 1000.
Proof.
  split; [|split; [|split]].
  - apply (reference_price_spec (fun _ => true) productReturned). reflexivity.
  - apply (reference_price_spec (fun _ => true) productReturned). reflexivity.
  - apply (reference_price_spec (fun _ => false) productReturned). reflexivity.
  - destruct (reference_price_spec accessoriesOnly productA1) as (_ & H & _).
    apply H. reflexivity.
Defined.

(** C3, as stated, fails: the price text "$9.007.199.254.740.993" holds
    the integer 9007199254740993, but the reference price of the product is
    9007199254740992, the nearest number the language has. *)
Lemma reference_price_rounds :
  specParsePrice (precio3 productGrand) = 9007199254740993
  /\ getReferencePrice (fun _ => false) productGrand = Fin 9007199254740992
  /\ getReferencePrice (fun _ => false) productGrand
     <> Fin (specParsePrice (precio3 productGrand)).
Proof.
  split; [reflexivity|]. split; [reflexivity|].
  vm_compute. intros H. discriminate H.
Qed.

(** C7. With out-of-stock products hidden, every product of the filtered
    result has a stock above zero; with out-of-stock products shown, the
    stock stage keeps the whole list. *)
Theorem stock_filter_spec (accessory : Product -> bool) (products : list Product)
    (st : FilterState) :
  (showOutOfStock st = false ->
   forall p, In p (filteredProducts accessory products st) -> StockPositive p)
  /\ (showOutOfStock st = true -> forall l, stockStage st l = l).
Proof.
  split; intros Hs.
  - intros p Hp. unfold filteredProducts in Hp.
    apply (Permutation_in p (priceStage_perm accessory st _)) in Hp.
    apply (Subsequence_In _ _ p (candidates_sub_stock products st)) in Hp.
    unfold stockStage in Hp. rewrite Hs in Hp. cbn [negb] in Hp.
    apply filter_In in Hp. now apply inStock_spec.
  - intros l. unfold stockStage. now rewrite Hs.
Qed.

Lemma stock_filter_spec_witness :
  StockPositive productA1
  /\ stockStage (setShowOutOfStock true scenarioState) scenarioProducts = scenarioProducts.
Proof.
  split.
  - apply (proj1 (stock_filter_spec (fun _ => false) scenarioProducts scenarioState)).
    + reflexivity.
    + simpl. auto.
  - apply (proj2 (stock_filter_spec (fun _ => false) scenarioProducts
                    (setShowOutOfStock true scenarioState))).
    reflexivity.
Defined.

(** C8. The filtered result holds products of the input list only: the
    candidates are the input with some products left out, the result is a
    rearrangement of the candidates, and it is the candidates themselves
    when no price order is selected. *)
Theorem no_fabrication (accessory : Product -> bool) (products : list Product)
    (st : FilterState) :
  (forall p, In p (filteredProducts accessory products st) -> In p products)
  /\ Subsequence (candidates products st) products
  /\ Permutation (filteredProducts accessory products st) (candidates products st)
  /\ (priceSort st = SortDefault ->
      filteredProducts accessory products st = candidates products st).
Proof.
  repeat split.
  - intros p Hp. apply (Subsequence_In _ _ p (candidates_sub products st)).
    apply (Permutation_in p (priceStage_perm accessory st _) Hp).
  - apply candidates_sub.
  - apply priceStage_perm.
  - intros H. unfold filteredProducts, priceStage. now rewrite H.
Qed.

Lemma no_fabrication_witness :
  filteredProducts (fun _ => false) scenarioProducts scenarioState
  = candidates scenarioProducts scenarioState.
Proof.
  apply (no_fabrication (fun _ => false) scenarioProducts scenarioState).
  reflexivity.
Defined.

(** C9. With an empty search text, and likewise with a search text made of
    white space only, the search stage keeps every product, so the result is
    the one of the other filters alone. *)
Theorem search_blank_identity (accessory : Product -> bool) (st : FilterState) :
  searchTerm st = "" \/ allWhiteSpace (searchTerm st) = true ->
  (forall l, searchStage st l = l)
  /\ (forall products,
         filteredProducts accessory products st
         = priceStage accessory st
             (brandStage st (categoryStage st (stockStage st (skuStage products))))).
Proof.
  intros H.
  assert (Hw : allWhiteSpace (searchTerm st) = true).
  { destruct H as [-> | H]; [reflexivity | exact H]. }
  assert (Hs : forall l, searchStage st l = l).
  { intros l. unfold searchStage. destruct (negb (searchTerm st =? "")%string); [|reflexivity].
    apply filter_all. intros p _. now apply searchMatches_blank. }
  split; [exact Hs|].
  intros products. unfold filteredProducts, candidates. now rewrite Hs.
Qed.

Lemma search_blank_identity_witness :
  searchStage (setSearchTerm "   " scenarioState) scenarioProducts = scenarioProducts
  /\ searchStage (setSearchTerm "" scenarioState) scenarioProducts = scenarioProducts.
Proof.
  split.
  - apply (search_blank_identity (fun _ => false) (setSearchTerm "   " scenarioState)).
    right. reflexivity.
  - apply (search_blank_identity (fun _ => false) (setSearchTerm "" scenarioState)).
    left. reflexivity.
Defined.

(** C10. Changing the category sets the selected category to the chosen
    value, puts the selected brand back to the sentinel and empties the
    search text; the out-of-stock flag and the price order stay as they
    were. A brand selection therefore never outlives a category change,
    whatever happened before it. *)
Theorem category_change_resets (st : FilterState) (target : string) :
  let st' := handle (CategoryChange target) st in
  selectedCategory st' = target
  /\ selectedBrand st' = Todos
  /\ searchTerm st' = ""
  /\ showOutOfStock st' = showOutOfStock st
  /\ priceSort st' = priceSort st
  /\ (forall es, selectedBrand (run (es ++ [CategoryChange target]) st) = Todos).
Proof.
  repeat split. intros es. unfold run. now rewrite fold_left_app.
Qed.

(** C5, as the code has it. After normalisation the stock is a number that
    is not NaN: a numeric stock other than NaN is kept as it is, whatever
    its sign or size, every other stock (not a number, NaN, absent) becomes
    0, and all the other fields are unchanged. *)
Theorem normalize_stock_spec (p : Product) :
  (exists n, stock (normalizeProduct p) = Number n /\ isNaN n = false)
  /\ (forall n, stock p = Number n -> isNaN n = false ->
                stock (normalizeProduct p) = Number n)
  /\ ((forall n, stock p = Number n -> isNaN n = true) ->
      stock (normalizeProduct p) = Number (Fin 0))
  /\ (id (normalizeProduct p) = id p
      /\ sku (normalizeProduct p) = sku p
      /\ nombre (normalizeProduct p) = nombre p
      /\ categoria (normalizeProduct p) = categoria p
      /\ marca (normalizeProduct p) = marca p
      /\ precio3 (normalizeProduct p) = precio3 p
      /\ nivelDeJuego (normalizeProduct p) = nivelDeJuego p
      /\ año (normalizeProduct p) = año p
      /\ urlImagenes (normalizeProduct p) = urlImagenes p).
Proof.
  cbn [normalizeProduct stock id sku nombre categoria marca precio3 nivelDeJuego
         año urlImagenes].
  split; [|split; [|split]].
  - unfold normalizeStock. destruct (stock p) as [| |b|n|s]; try (now exists (Fin 0)).
    destruct n as [|neg|z]; cbn [isNaN negb]; [now exists (Fin 0) | now eexists | now eexists].
  - intros n -> Hn. unfold normalizeStock. now rewrite Hn.
  - intros H. unfold normalizeStock. destruct (stock p) as [| |b|n|s]; try reflexivity.
    now rewrite (H n eq_refl).
  - repeat split.
Qed.

Lemma normalize_stock_spec_witness :
  stock (normalizeProduct productA1) = Number (Fin 5)
  /\ stock (normalizeProduct productBroken) = Number (Fin 0).
Proof.
  split.
  - apply (normalize_stock_spec productA1); reflexivity.
  - apply (normalize_stock_spec productBroken). intros n H. discriminate H.
Defined.

(** C5, as stated, fails: a record whose stock is the number -5 keeps that
    stock through normalisation, and -5 is not a non-negative number. *)
Lemma normalize_keeps_negative_stock :
  stock (normalizeProduct productReturned) = Number (Fin (-5))
  /\ nonNegativeFinite (stock (normalizeProduct productReturned)) = false.
Proof. split; reflexivity. Qed.

(** C4. The price stage is a stable sort by reference price: its result is
    a rearrangement of its input in the selected order of reference prices;
    sorting a second time in the same direction changes nothing; products of
    equal reference price keep their relative position; and sorting
    ascending, then descending, exchanges the positions of products of
    different reference prices and keeps the relative position of products
    of equal reference price. *)
Theorem price_sort_stable (accessory : Product -> bool) (st : FilterState)
    (l : list Product) :
  let price := getReferencePrice accessory in
  let up := priceStage accessory (setPriceSort SortAsc st) l in
  let down := priceStage accessory (setPriceSort SortDesc st) up in
  Permutation (priceStage accessory st l) l
  /\ (forall a b, Before (priceStage accessory st l) a b ->
        match priceSort st with
        | SortDefault => Before l a b
        | SortAsc => gtb (price a) (price b) = false
        | SortDesc => gtb (price b) (price a) = false
        end)
  /\ priceStage accessory st (priceStage accessory st l) = priceStage accessory st l
  /\ (forall a b, Before l a b -> price a = price b ->
        Before (priceStage accessory st l) a b)
  /\ (forall a b, Before up a b ->
        (price a <> price b -> Before down b a /\ ~ Before down a b)
        /\ (price a = price b -> Before down a b)).
Proof.
  intros price up down.
  assert (Hinj : forall a b, price a = price b
                             <-> priceRank accessory a = priceRank accessory b).
  { intros a b. apply priceRank_eq. }
  assert (Hgt : forall a b, gtb (price a) (price b)
                            = (priceRank accessory b <? priceRank accessory a)).
  { intros a b. apply gtb_rank; apply getReferencePrice_bounded. }
  pose proof (comparePrice_asc accessory) as Hasc.
  pose proof (comparePrice_desc accessory) as Hdesc.
  split; [apply priceStage_perm|].
  split.
  { intros a b. unfold priceStage. destruct (priceSort st); intros Hb.
    - exact Hb.
    - apply (sort_Before_le _ _ Hasc) in Hb.
      rewrite Hgt. apply Z.ltb_ge. exact Hb.
    - apply (sort_Before_le _ _ Hdesc) in Hb.
      rewrite Hgt. apply Z.ltb_ge. unfold keyLe in Hb. lia. }
  split.
  { unfold priceStage. destruct (priceSort st).
    - reflexivity.
    - apply (sort_idempotent _ _ Hasc).
    - apply (sort_idempotent _ _ Hdesc). }
  split.
  { intros a b Hb He. apply Hinj in He. unfold priceStage. destruct (priceSort st).
    - exact Hb.
    - now apply (sort_stable _ _ Hasc).
    - apply (sort_stable _ _ Hdesc); [lia | exact Hb]. }
  intros a b Hb. subst up down. unfold priceStage in *.
  cbn [setPriceSort priceSort] in *.
  pose proof (sort_Before_le _ _ Hasc _ _ _ Hb) as Hle. unfold keyLe in Hle.
  destruct (Before_In _ _ _ Hb) as [Ha Hb'].
  split.
  - intros Hne. rewrite Hinj in Hne.
    apply (sort_Before_lt _ _ Hdesc); auto. lia.
  - intros He. apply Hinj in He.
    apply (sort_stable _ _ Hdesc); [lia | exact Hb].
Qed.

Lemma price_sort_stable_witness :
  Before (priceStage accessoriesOnly (setPriceSort SortDesc scenarioState)
            [productA1; productB2; productReturned])
    productA1 productReturned
  /\ Before (priceStage accessoriesOnly (setPriceSort SortDesc scenarioState)
               (priceStage accessoriesOnly (setPriceSort SortAsc scenarioState)
                  [productA1; productB2; productReturned]))
       productA1 productB2
  /\ Before (priceStage accessoriesOnly (setPriceSort SortAsc scenarioState)
               [productGrand; productB2; productGrandTwin])
       productGrand productGrandTwin.
Proof.
  split; [|split].
  - destruct (price_sort_stable accessoriesOnly (setPriceSort SortDesc scenarioState)
                [productA1; productB2; productReturned]) as (_ & _ & _ & Hties & _).
    apply Hties.
    + exists [], [productB2], []. reflexivity.
    + reflexivity.
  - destruct (price_sort_stable accessoriesOnly scenarioState
                [productA1; productB2; productReturned]) as (_ & _ & _ & _ & Hturn).
    apply (Hturn productB2 productA1).
    + exists [], [], [productReturned]. reflexivity.
    + vm_compute. intros H. discriminate H.
  - destruct (price_sort_stable accessoriesOnly (setPriceSort SortAsc scenarioState)
                [productGrand; productB2; productGrandTwin]) as (_ & _ & _ & Hties & _).
    apply Hties.
    + exists [], [productB2], []. reflexivity.
    + vm_compute. reflexivity.
Defined.

(** C6. Both facet lists start with the sentinel and go on with values in
    the order of their first appearance, without repetition. The categories
    are those of the products with a usable SKU. The brands are the
    non-empty brands of the products with a usable SKU, taken within the
    selected category when one is selected and among all of them under the
    sentinel. Neither list looks at the stock or at the out-of-stock flag. *)
Theorem facets_spec (products : list Product) (st : FilterState) :
  let valid := filter validSku products in
  let scoped :=
    if (selectedCategory st =? Todos)%string then valid
    else filter (fun p => fieldIs (categoria p) (selectedCategory st)) valid in
  categories products st = Some Todos :: firstSeen fieldEqb (map categoria valid)
  /\ availableBrands products st
     = Some Todos :: firstSeen fieldEqb (filter fieldTruthy (map marca scoped))
  /\ (forall c, In c (tl (categories products st))
                <-> exists p, In p products /\ SkuUsable p /\ categoria p = c)
  /\ (forall b, In b (tl (availableBrands products st))
                <-> exists p, In p products /\ SkuUsable p /\ marca p = b
                              /\ (exists s, b = Some s /\ s <> "")
                              /\ (selectedCategory st = Todos
                                  \/ categoria p = Some (selectedCategory st)))
  /\ NoDup (tl (categories products st))
  /\ NoDup (tl (availableBrands products st))
  /\ (forall shown,
         categories products (setShowOutOfStock shown st) = categories products st
         /\ availableBrands products (setShowOutOfStock shown st)
            = availableBrands products st).
Proof.
  intros valid scoped.
  assert (Hc : categories products st
               = Some Todos :: firstSeen fieldEqb (map categoria valid)).
  { unfold categories. now rewrite (newSet_firstSeen _ fieldEqb_eq). }
  assert (Hb : availableBrands products st
               = Some Todos :: firstSeen fieldEqb (filter fieldTruthy (map marca scoped))).
  { unfold availableBrands, scoped, valid.
    destruct (selectedCategory st =? Todos)%string; cbn [negb];
      rewrite (newSet_firstSeen _ fieldEqb_eq); [reflexivity|].
    rewrite filter_filter_and. do 4 f_equal. apply filter_ext. intros p. apply andb_comm. }
  split; [exact Hc|]. split; [exact Hb|].
  split.
  { intros c. rewrite Hc. cbn [tl]. rewrite (firstSeen_In _ fieldEqb_eq), in_map_iff.
    split.
    - intros [p [E Hp]]. apply filter_In in Hp. exists p.
      rewrite <- validSku_spec. tauto.
    - intros [p (Hp & Hs & E)]. exists p. split; [exact E|].
      apply filter_In. rewrite validSku_spec. tauto. }
  split.
  { intros b. rewrite Hb. cbn [tl].
    rewrite (firstSeen_In _ fieldEqb_eq), filter_In, in_map_iff, fieldTruthy_spec.
    assert (Hscoped : forall p, In p scoped
              <-> In p products /\ SkuUsable p
                  /\ (selectedCategory st = Todos
                      \/ categoria p = Some (selectedCategory st))).
    { intros p. unfold scoped, valid. rewrite <- validSku_spec.
      destruct (String.eqb_spec (selectedCategory st) Todos) as [E | E].
      - rewrite filter_In. tauto.
      - rewrite !filter_In. unfold fieldIs. destruct (categoria p) as [c|].
        + rewrite String.eqb_eq. split.
          * intros [[H1 H2] ->]. auto.
          * intros (H1 & H2 & [H3 | [= ->]]); [contradiction | auto].
        + split.
          * intros [_ H]. discriminate.
          * intros (_ & _ & [H | H]); [contradiction | discriminate]. }
    split.
    - intros [[p [E Hp]] Ht]. apply Hscoped in Hp. exists p. tauto.
    - intros [p (Hp & Hs & E & Ht & Hsel)]. split; [|exact Ht].
      exists p. split; [exact E|]. apply Hscoped. tauto. }
  split; [rewrite Hc; apply (firstSeen_NoDup _ fieldEqb_eq)|].
  split; [rewrite Hb; apply (firstSeen_NoDup _ fieldEqb_eq)|].
  intros shown. split; reflexivity.
Qed.

Lemma facets_spec_witness :
  ~ In (Some "Fantasma")
      (tl (availableBrands [productGhost; productA1] scenarioState))
  /\ In (Some "X") (tl (availableBrands [productGhost; productA1] scenarioState)).
Proof.
  destruct (facets_spec [productGhost; productA1] scenarioState)
    as (_ & _ & _ & Hbrands & _).
  split.
  - intros H. apply Hbrands in H.
    destruct H as [p (Hp & (k & Hk & Hw) & Hm & _)].
    destruct Hp as [<- | [<- | []]].
    + injection Hk as <-. discriminate Hw.
    + discriminate Hm.
  - apply Hbrands. exists productA1.
    split; [right; left; reflexivity|].
    split; [exists "A1"; split; reflexivity|].
    split; [reflexivity|].
    split; [exists "X"; split; [reflexivity | discriminate]|].
    left. reflexivity.
Defined.

(* ================================================================== *)
(** ** Further properties of the pipeline *)

Lemma fieldIs_spec (f : option string) (selected : string) :
  fieldIs f selected = true <-> f = Some selected.
Proof.
  unfold fieldIs. destruct f as [s|]; [|split; discriminate].
  rewrite String.eqb_eq. split; congruence.
Qed.

Lemma candidates_filter (l : list Product) (st : FilterState) :
  candidates l st = filter (keeps st) l.
Proof.
  unfold candidates, searchStage, brandStage, categoryStage, stockStage, skuStage.
  assert (E : forall p, keeps st p
                = validSku p
                  && (showOutOfStock st || inStock p)
                  && ((selectedCategory st =? Todos)%string
                      || fieldIs (categoria p) (selectedCategory st))
                  && ((selectedBrand st =? Todos)%string
                      || fieldIs (marca p) (selectedBrand st))
                  && ((searchTerm st =? "")%string || searchMatches (searchTerm st) p))
    by reflexivity.
  rewrite (filter_ext _ _ E).
  destruct (showOutOfStock st), (selectedCategory st =? Todos)%string,
    (selectedBrand st =? Todos)%string, (searchTerm st =? "")%string;
    cbn [negb orb]; rewrite ?filter_filter_and; apply filter_ext; intros p;
    destruct (validSku p), (inStock p), (fieldIs (categoria p) (selectedCategory st)),
      (fieldIs (marca p) (selectedBrand st)), (searchMatches (searchTerm st) p);
    reflexivity.
Qed.

Lemma keeps_spec (st : FilterState) (p : Product) :
  keeps st p = true
  <-> SkuUsable p
      /\ (showOutOfStock st = false -> StockPositive p)
      /\ (selectedCategory st <> Todos -> categoria p = Some (selectedCategory st))
      /\ (selectedBrand st <> Todos -> marca p = Some (selectedBrand st))
      /\ (searchTerm st <> "" -> SpecSearchKeeps (searchTerm st) p).
Proof.
  unfold keeps.
  rewrite !andb_true_iff, !orb_true_iff, validSku_spec, inStock_spec,
    searchMatches_SpecSearchKeeps, !fieldIs_spec, !String.eqb_eq.
  destruct (showOutOfStock st);
    destruct (String.eqb_spec (selectedCategory st) Todos);
    destruct (String.eqb_spec (selectedBrand st) Todos);
    destruct (String.eqb_spec (searchTerm st) ""); intuition congruence.
Qed.

Lemma In_filteredProducts (accessory : Product -> bool) (l : list Product)
    (st : FilterState) (p : Product) :
  In p (filteredProducts accessory l st) <-> In p l /\ keeps st p = true.
Proof.
  unfold filteredProducts. rewrite <- filter_In, <- candidates_filter. split.
  - apply Permutation_in, priceStage_perm.
  - apply Permutation_in, Permutation_sym, priceStage_perm.
Qed.

(** X1. A product is in the filtered result exactly when it is in the
    list, its SKU is usable, and it passes every active filter: a stock
    above zero unless out-of-stock products are shown, the selected category
    and brand unless the sentinel is selected, and the search, as
    [SpecSearchKeeps] describes it, when the search text is not empty. *)
Theorem result_membership (accessory : Product -> bool) (l : list Product)
    (st : FilterState) (p : Product) :
  In p (filteredProducts accessory l st)
  <-> In p l
      /\ SkuUsable p
      /\ (showOutOfStock st = false -> StockPositive p)
      /\ (selectedCategory st <> Todos -> categoria p = Some (selectedCategory st))
      /\ (selectedBrand st <> Todos -> marca p = Some (selectedBrand st))
      /\ (searchTerm st <> "" -> SpecSearchKeeps (searchTerm st) p).
Proof. rewrite In_filteredProducts, keeps_spec. reflexivity. Qed.

Lemma result_membership_witness :
  ~ In productGhost
      (filteredProducts accessoriesOnly [productGhost; productMesa]
         (setShowOutOfStock true initialState))
  /\ In productMesa
       (filteredProducts accessoriesOnly [productGhost; productMesa]
          (setSearchTerm "PLEG" initialState)).
Proof.
  split.
  - intros H.
    apply (result_membership accessoriesOnly [productGhost; productMesa]
             (setShowOutOfStock true initialState) productGhost) in H.
    destruct H as (_ & (k & Hk & Hw) & _). injection Hk as <-. discriminate Hw.
  - apply (result_membership accessoriesOnly [productGhost; productMesa]
             (setSearchTerm "PLEG" initialState) productMesa).
    split; [right; left; reflexivity|].
    split; [exists "M7"; split; reflexivity|].
    split; [intros _; exists (Fin 2); split;
            [reflexivity | right; exists 2; split; [reflexivity | lia]]|].
    split; [intros H; now contradiction H|].
    split; [intros H; now contradiction H|].
    intros _. apply searchMatches_SpecSearchKeeps. reflexivity.
Defined.

Lemma priceStage_idempotent (accessory : Product -> bool) (st : FilterState)
    (l : list Product) :
  priceStage accessory st (priceStage accessory st l) = priceStage accessory st l.
Proof.
  unfold priceStage. destruct (priceSort st).
  - reflexivity.
  - apply (sort_idempotent _ _ (comparePrice_asc accessory)).
  - apply (sort_idempotent _ _ (comparePrice_desc accessory)).
Qed.

(** X2. Running the pipeline on its own result, with the same filter
    state, gives that result back. *)
Theorem pipeline_idempotent (accessory : Product -> bool) (l : list Product)
    (st : FilterState) :
  filteredProducts accessory (filteredProducts accessory l st) st
  = filteredProducts accessory l st.
Proof.
  unfold filteredProducts at 1.
  rewrite candidates_filter, filter_all.
  - unfold filteredProducts. apply priceStage_idempotent.
  - intros p Hp. now apply In_filteredProducts in Hp.
Qed.

(** X3. The order of the five filter stages does not matter for the
    candidates: running them in the opposite order, search first and SKU
    check last, keeps the same products in the same order. *)
Theorem stage_order_irrelevant (l : list Product) (st : FilterState) :
  candidates l st
  = skuStage (stockStage st (categoryStage st (brandStage st (searchStage st l)))).
Proof.
  rewrite candidates_filter.
  unfold searchStage, brandStage, categoryStage, stockStage, skuStage.
  assert (E : forall p, keeps st p
                = validSku p
                  && (showOutOfStock st || inStock p)
                  && ((selectedCategory st =? Todos)%string
                      || fieldIs (categoria p) (selectedCategory st))
                  && ((selectedBrand st =? Todos)%string
                      || fieldIs (marca p) (selectedBrand st))
                  && ((searchTerm st =? "")%string || searchMatches (searchTerm st) p))
    by reflexivity.
  rewrite (filter_ext _ _ E).
  destruct (showOutOfStock st), (selectedCategory st =? Todos)%string,
    (selectedBrand st =? Todos)%string, (searchTerm st =? "")%string;
    cbn [negb orb]; rewrite ?filter_filter_and; apply filter_ext; intros p;
    destruct (validSku p), (inStock p), (fieldIs (categoria p) (selectedCategory st)),
      (fieldIs (marca p) (selectedBrand st)), (searchMatches (searchTerm st) p);
    reflexivity.
Qed.

(** X4. Hiding out-of-stock products only removes products: the candidates
    with the flag off are the candidates with the flag on, less those whose
    stock is not above zero, in the same order. *)
Theorem hiding_out_of_stock_narrows (l : list Product) (st : FilterState) :
  candidates l (setShowOutOfStock false st)
  = filter inStock (candidates l (setShowOutOfStock true st))
  /\ Subsequence (candidates l (setShowOutOfStock false st))
       (candidates l (setShowOutOfStock true st)).
Proof.
  assert (E : candidates l (setShowOutOfStock false st)
              = filter inStock (candidates l (setShowOutOfStock true st))).
  { rewrite !candidates_filter, filter_filter_and. apply filter_ext. intros p.
    unfold keeps. cbn [setShowOutOfStock showOutOfStock selectedCategory selectedBrand
                         searchTerm orb].
    destruct (validSku p), (inStock p),
      ((selectedCategory st =? Todos)%string || fieldIs (categoria p) (selectedCategory st)),
      ((selectedBrand st =? Todos)%string || fieldIs (marca p) (selectedBrand st)),
      ((searchTerm st =? "")%string || searchMatches (searchTerm st) p); reflexivity. }
  split; [exact E | rewrite E; apply Subsequence_filter].
Qed.

Lemma filter_map_comm {A B : Type} (g : A -> B) (f : B -> bool) (l : list A) :
  filter f (map g l) = map g (filter (fun x => f (g x)) l).
Proof.
  induction l as [|x l IH]; cbn [map filter]; [reflexivity|].
  destruct (f (g x)); cbn [map]; now rewrite IH.
Qed.

Lemma sort_map {A B : Type} (g : A -> B) (cmp : B -> B -> number) (l : list A) :
  sort cmp (map g l) = map g (sort (fun a b => cmp (g a) (g b)) l).
Proof.
  induction l as [|x l IH]; cbn [map sort]; [reflexivity|].
  rewrite IH. generalize (sort (fun a b => cmp (g a) (g b)) l). intros s.
  induction s as [|y s IHs]; cbn [map insertSorted]; [reflexivity|].
  destruct (gtb (cmp (g x) (g y)) (Fin 0)); cbn [map]; [now rewrite IHs | reflexivity].
Qed.

Lemma sort_ext {A : Type} (cmp cmp' : A -> A -> number) (l : list A) :
  (forall a b, cmp a b = cmp' a b) -> sort cmp l = sort cmp' l.
Proof.
  intros H. induction l as [|x l IH]; cbn [sort]; [reflexivity|].
  rewrite IH. generalize (sort cmp' l). intros s.
  induction s as [|y s IHs]; cbn [insertSorted]; [reflexivity|].
  rewrite H, IHs. reflexivity.
Qed.

Lemma inStock_normalize (p : Product) : inStock (normalizeProduct p) = inStock p.
Proof.
  unfold inStock, stockNum. cbn [normalizeProduct stock]. unfold normalizeStock.
  destruct (stock p) as [| |b|n|s]; try reflexivity.
  destruct n; reflexivity.
Qed.

Lemma keeps_normalize (st : FilterState) (p : Product) :
  keeps st (normalizeProduct p) = keeps st p.
Proof.
  unfold keeps. rewrite inStock_normalize. reflexivity.
Qed.

(** X5. Normalising the records first or last makes no difference to the
    candidates, because the stock test of the pipeline already reads a stock
    that is not a number, or is NaN, as zero. The same holds for the sorted
    result when the accessory predicate does not look at the stock. *)
Theorem normalization_transparent (accessory : Product -> bool) (l : list Product)
    (st : FilterState) :
  candidates (normalizeProducts l) st = normalizeProducts (candidates l st)
  /\ ((forall p, accessory (normalizeProduct p) = accessory p) ->
      filteredProducts accessory (normalizeProducts l) st
      = normalizeProducts (filteredProducts accessory l st)).
Proof.
  assert (E : candidates (normalizeProducts l) st = normalizeProducts (candidates l st)).
  { rewrite !candidates_filter. unfold normalizeProducts. rewrite filter_map_comm.
    f_equal. apply filter_ext. intros p. apply keeps_normalize. }
  split; [exact E|].
  intros H. unfold filteredProducts. rewrite E. unfold priceStage, normalizeProducts.
  destruct (priceSort st); [reflexivity | |];
    rewrite sort_map; f_equal; apply sort_ext; intros a b;
    unfold comparePrice, getReferencePrice; rewrite !H; reflexivity.
Qed.

Lemma normalization_transparent_witness :
  filteredProducts accessoriesOnly
    (normalizeProducts [productBroken; productA1; productReturned])
    (setPriceSort SortDesc (setShowOutOfStock true scenarioState))
  = normalizeProducts
      (filteredProducts accessoriesOnly [productBroken; productA1; productReturned]
         (setPriceSort SortDesc (setShowOutOfStock true scenarioState))).
Proof.
  apply (normalization_transparent accessoriesOnly
           [productBroken; productA1; productReturned]
           (setPriceSort SortDesc (setShowOutOfStock true scenarioState))).
  intros p. reflexivity.
Defined.

Lemma normalizeProduct_fixed (p : Product) :
  normalizeProduct p = p <-> StockNormal p.
Proof.
  unfold StockNormal. split.
  - intros H. apply (f_equal stock) in H. cbn [normalizeProduct stock] in H.
    unfold normalizeStock in H. destruct (stock p) as [| |b|n|s]; try discriminate.
    exists n. split; [reflexivity|]. destruct n; [discriminate | reflexivity..].
  - intros [n [Hs Hn]]. destruct p as [i k nm c m pr s nv a u]. cbn in *. subst s.
    unfold normalizeProduct, normalizeStock. cbn. now rewrite Hn.
Qed.

(** X6. Normalising twice is normalising once, and normalisation leaves a
    list as it is exactly when every stock in it is already a number other
    than NaN. *)
Theorem normalize_idempotent (l : list Product) :
  normalizeProducts (normalizeProducts l) = normalizeProducts l
  /\ (normalizeProducts l = l <-> Forall StockNormal l).
Proof.
  split.
  - unfold normalizeProducts. rewrite map_map. apply map_ext. intros p.
    apply normalizeProduct_fixed. unfold StockNormal. cbn [normalizeProduct stock].
    unfold normalizeStock. destruct (stock p) as [| |b|n|s]; try (now exists (Fin 0)).
    destruct n; cbn [isNaN negb]; [now exists (Fin 0) | now eexists | now eexists].
  - induction l as [|p l IH]; cbn [normalizeProducts map].
    + split; [constructor | reflexivity].
    + split.
      * intros H. injection H as Hp Hl. constructor.
        -- now apply normalizeProduct_fixed.
        -- now apply IH.
      * intros H. inversion H as [|? ? Hp Hl]; subst. f_equal.
        -- now apply normalizeProduct_fixed.
        -- now apply IH.
Qed.

(* ================================================================== *)
(** ** Further properties of the search text *)

Lemma searchStage_filter (st : FilterState) (l : list Product) :
  searchStage st l = filter (searchMatches (searchTerm st)) l.
Proof.
  unfold searchStage. destruct (String.eqb_spec (searchTerm st) "") as [E | E];
    cbn [negb]; [|reflexivity].
  symmetry. apply filter_all. intros p _. apply searchMatches_blank.
  now rewrite E.
Qed.

Lemma candidates_search (l : list Product) (st : FilterState) (text : string) :
  candidates l (setSearchTerm text st)
  = filter (searchMatches text)
      (brandStage st (categoryStage st (stockStage st (skuStage l)))).
Proof. unfold candidates. rewrite searchStage_filter. reflexivity. Qed.

Lemma filteredProducts_search (accessory : Product -> bool) (l : list Product)
    (st : FilterState) (text : string) :
  filteredProducts accessory l (setSearchTerm text st)
  = priceStage accessory st
      (filter (searchMatches text)
         (brandStage st (categoryStage st (stockStage st (skuStage l))))).
Proof. unfold filteredProducts. rewrite candidates_search. reflexivity. Qed.

Lemma lowerChar_idempotent (c : ascii) : lowerChar (lowerChar c) = lowerChar c.
Proof. destruct c as [[] [] [] [] [] [] [] []]; reflexivity. Qed.

Lemma isWhiteSpace_lowerChar (c : ascii) : isWhiteSpace (lowerChar c) = isWhiteSpace c.
Proof. destruct c as [[] [] [] [] [] [] [] []]; reflexivity. Qed.

Lemma toLowerCase_idempotent (s : string) : toLowerCase (toLowerCase s) = toLowerCase s.
Proof.
  unfold toLowerCase. induction s as [|c s IH]; cbn [mapChars]; [reflexivity|].
  now rewrite lowerChar_idempotent, IH.
Qed.

Lemma toLowerCase_trimStart (s : string) :
  toLowerCase (trimStart s) = trimStart (toLowerCase s).
Proof.
  unfold toLowerCase. induction s as [|c s IH]; cbn [mapChars trimStart]; [reflexivity|].
  rewrite isWhiteSpace_lowerChar. destruct (isWhiteSpace c); [exact IH | reflexivity].
Qed.

Lemma toLowerCase_trimEnd (s : string) :
  toLowerCase (trimEnd s) = trimEnd (toLowerCase s).
Proof.
  unfold toLowerCase. induction s as [|c s IH]; cbn [mapChars trimEnd]; [reflexivity|].
  rewrite <- IH, isWhiteSpace_lowerChar.
  destruct (trimEnd s); cbn [mapChars]; [destruct (isWhiteSpace c)|]; reflexivity.
Qed.

Lemma toLowerCase_trim (s : string) : toLowerCase (trim s) = trim (toLowerCase s).
Proof. unfold trim. now rewrite toLowerCase_trimEnd, toLowerCase_trimStart. Qed.

Lemma trimEnd_idempotent (s : string) : trimEnd (trimEnd s) = trimEnd s.
Proof.
  induction s as [|c s IH]; cbn [trimEnd]; [reflexivity|].
  destruct (trimEnd s) as [|d r] eqn:E.
  - destruct (isWhiteSpace c) eqn:Hc; [reflexivity|]. cbn [trimEnd]. now rewrite Hc.
  - cbn [trimEnd] in *. now rewrite IH.
Qed.

Lemma trim_idempotent (s : string) : trim (trim s) = trim s.
Proof.
  unfold trim at 1. rewrite trimStart_trim. unfold trim. apply trimEnd_idempotent.
Qed.

Lemma searchMatches_terms (t1 t2 : string) (p : Product) :
  searchTermsOf t1 = searchTermsOf t2 -> searchMatches t1 p = searchMatches t2 p.
Proof. unfold searchMatches. now intros ->. Qed.

(** X7. The result depends on the search text only through its lower-case,
    trimmed form: lower-casing the text, trimming it, or replacing it by any
    text of the same lower-case trimmed form gives the same result. *)
Theorem search_ignores_case_and_margins (accessory : Product -> bool)
    (l : list Product) (st : FilterState) (text : string) :
  filteredProducts accessory l (setSearchTerm (toLowerCase text) st)
  = filteredProducts accessory l (setSearchTerm text st)
  /\ filteredProducts accessory l (setSearchTerm (trim text) st)
     = filteredProducts accessory l (setSearchTerm text st)
  /\ (forall text',
         trim (toLowerCase text') = trim (toLowerCase text) ->
         filteredProducts accessory l (setSearchTerm text' st)
         = filteredProducts accessory l (setSearchTerm text st)).
Proof.
  assert (G : forall text',
             trim (toLowerCase text') = trim (toLowerCase text) ->
             filteredProducts accessory l (setSearchTerm text' st)
             = filteredProducts accessory l (setSearchTerm text st)).
  { intros text' H. rewrite !filteredProducts_search. f_equal. apply filter_ext.
    intros p. apply searchMatches_terms. unfold searchTermsOf. now rewrite H. }
  split; [|split; [|exact G]].
  - apply G. now rewrite toLowerCase_idempotent.
  - apply G. now rewrite toLowerCase_trim, trim_idempotent.
Qed.

Lemma search_ignores_case_and_margins_witness :
  filteredProducts accessoriesOnly scenarioProducts
    (setSearchTerm " avanzado  paleta " scenarioState)
  = filteredProducts accessoriesOnly scenarioProducts
      (setSearchTerm "avanzado  paleta" scenarioState).
Proof.
  apply (search_ignores_case_and_margins accessoriesOnly scenarioProducts scenarioState
           "avanzado  paleta").
  reflexivity.
Defined.

Lemma splitScan_noWhiteSpace (s : string) (skipping : bool) (cur piece : string) :
  noWhiteSpace cur = true ->
  In piece (splitScan skipping cur s) -> noWhiteSpace piece = true.
Proof.
  revert skipping cur. induction s as [|c s IH]; intros skipping cur Hcur;
    cbn [splitScan].
  - intros [<- | []]. exact Hcur.
  - destruct (isWhiteSpace c) eqn:Hc.
    + destruct skipping.
      * apply IH, Hcur.
      * intros [<- | H]; [exact Hcur | now apply (IH true EmptyString)].
    + apply IH. now apply noWhiteSpace_snoc.
Qed.

Lemma splitScan_nonempty (s : string) (skipping : bool) (cur piece : string) :
  endsClean s = true ->
  (if skipping then s <> EmptyString
   else cur <> EmptyString \/ exists c r, s = String c r /\ isWhiteSpace c = false) ->
  In piece (splitScan skipping cur s) -> piece <> EmptyString.
Proof.
  revert skipping cur. induction s as [|c s IH]; intros skipping cur Hend Hst;
    cbn [splitScan].
  - destruct skipping; [contradiction|].
    destruct Hst as [H | (c & r & H & _)]; [|discriminate].
    now intros [<- | []].
  - assert (Hs : endsClean s = true) by (cbn [endsClean] in Hend; now destruct s).
    destruct (isWhiteSpace c) eqn:Hc.
    + assert (Hne : s <> EmptyString).
      { intros ->. cbn [endsClean] in Hend. rewrite Hc in Hend. discriminate. }
      destruct skipping.
      * now apply IH.
      * intros [<- | H].
        -- destruct Hst as [H | (c' & r' & [= <- <-] & H)]; [exact H | congruence].
        -- now apply (IH true EmptyString).
    + apply IH; [exact Hs|]. left. apply snoc_not_empty.
Qed.

Lemma allWhiteSpace_toLowerCase (s : string) :
  allWhiteSpace (toLowerCase s) = allWhiteSpace s.
Proof.
  unfold toLowerCase. induction s as [|c s IH]; cbn [mapChars allWhiteSpace]; [reflexivity|].
  now rewrite isWhiteSpace_lowerChar, IH.
Qed.

(** X8. A search term never contains white space. When the search text
    holds something besides white space no term is empty, so repeated or
    surrounding blanks never add a term that matches everything; a text of
    white space only has the empty term alone. *)
Theorem search_terms_wellformed (text term : string) :
  In term (searchTermsOf text) ->
  noWhiteSpace term = true
  /\ (allWhiteSpace text = false -> term <> "")
  /\ (allWhiteSpace text = true -> term = "").
Proof.
  unfold searchTermsOf, splitWhiteSpace. intros Hin. split; [|split].
  - apply (splitScan_noWhiteSpace (trim (toLowerCase text)) false EmptyString term);
      [reflexivity | exact Hin].
  - intros Hb.
    apply (splitScan_nonempty (trim (toLowerCase text)) false EmptyString);
      [apply endsClean_trimEnd | | exact Hin].
    right. unfold trim.
    pose proof (trimStart_head (toLowerCase text)) as Hh.
    destruct (trimStart (toLowerCase text)) as [|c r] eqn:E.
    + apply trimStart_blank in E. rewrite allWhiteSpace_toLowerCase in E. congruence.
    + exists c, (trimEnd r). split; [now apply trimEnd_cons | exact Hh].
  - intros Hb. rewrite (trim_allWhiteSpace text Hb) in Hin.
    destruct Hin as [<- | []]. reflexivity.
Qed.

Lemma search_terms_wellformed_witness :
  noWhiteSpace "2026" = true /\ "2026" <> "".
Proof.
  destruct (search_terms_wellformed
              (String nbsp ("Avanzado" ++ String nbsp (String nbsp "2026 "))) "2026")
    as (H1 & H2 & _).
  - right. left. reflexivity.
  - split; [exact H1 | apply H2; reflexivity].
Defined.

(** X9. Adding terms to the search can only narrow the result: when every
    term of one text is a term of another, the candidates of the second are
    candidates of the first, in the same order, and every product of the
    second result is in the first. *)
Theorem more_terms_narrow (accessory : Product -> bool) (l : list Product)
    (st : FilterState) (text1 text2 : string) :
  (forall term, In term (searchTermsOf text1) -> In term (searchTermsOf text2)) ->
  Subsequence (candidates l (setSearchTerm text2 st))
    (candidates l (setSearchTerm text1 st))
  /\ (forall p, In p (filteredProducts accessory l (setSearchTerm text2 st)) ->
                In p (filteredProducts accessory l (setSearchTerm text1 st))).
Proof.
  intros Hterms.
  assert (Himp : forall p, searchMatches text2 p = true -> searchMatches text1 p = true).
  { intros p. unfold searchMatches. rewrite !forallb_forall. auto. }
  rewrite !candidates_search.
  set (base := brandStage st (categoryStage st (stockStage st (skuStage l)))).
  assert (E : filter (searchMatches text2) base
              = filter (searchMatches text2) (filter (searchMatches text1) base)).
  { rewrite filter_filter_and. apply filter_ext_in. intros p _.
    destruct (searchMatches text2 p) eqn:E2; [now rewrite (Himp p E2)|].
    now rewrite andb_false_r. }
  split.
  - rewrite E. apply Subsequence_filter.
  - intros p. rewrite !filteredProducts_search. fold base. intros Hp.
    apply (Permutation_in p (priceStage_perm accessory st _)) in Hp.
    apply (Permutation_in p (Permutation_sym (priceStage_perm accessory st _))).
    rewrite E in Hp. now apply filter_In in Hp.
Qed.

Lemma more_terms_narrow_witness :
  Subsequence (candidates scenarioProducts (setSearchTerm "paleta pro" scenarioState))
    (candidates scenarioProducts (setSearchTerm "PRO" scenarioState)).
Proof.
  destruct (more_terms_narrow accessoriesOnly scenarioProducts scenarioState
              "PRO" "paleta pro") as [H _].
  - intros term Hterm. vm_compute in Hterm. destruct Hterm as [<- | []].
    vm_compute. auto.
  - exact H.
Defined.

(* ================================================================== *)
(** ** Further properties of the price parser *)

Ltac read_digit :=
  match goal with
  | |- context [isDigit ?c] =>
      change (isDigit c) with true;
      let v := eval vm_compute in (digitValue c) in
      change (digitValue c) with v
  end.

Lemma parseDigits_uint (d d0 : Decimal.uint) :
  parseDigits (Z.of_N (Unsigned.of_lu d0)) true (NilEmpty.string_of_uint d)
  = Some (Z.of_N (Unsigned.of_lu (Decimal.revapp d d0))).
Proof.
  revert d0.
  induction d as [|d IH|d IH|d IH|d IH|d IH|d IH|d IH|d IH|d IH|d IH]; intros d0;
    cbn [NilEmpty.string_of_uint parseDigits Decimal.revapp]; [reflexivity|..];
    read_digit; cbv iota; rewrite <- IH; f_equal; cbn [Unsigned.of_lu]; lia.
Qed.

Lemma decimalOf_first (n : N) :
  exists c r, decimalOf n = String c r /\ isDigit c = true
              /\ parseDigits 0 false (String c r) = Some (Z.of_N n).
Proof.
  unfold decimalOf.
  assert (Hn : Z.of_N n = Z.of_N (Unsigned.of_lu (Decimal.revapp (N.to_uint n) Decimal.Nil))).
  { f_equal. rewrite <- (DecimalN.Unsigned.of_to n) at 1. unfold N.of_uint.
    apply Unsigned.of_uint_alt. }
  rewrite Hn.
  assert (Hnil : N.to_uint n <> Decimal.Nil).
  { destruct n; [discriminate | apply Unsigned.to_uint_nonnil]. }
  destruct (N.to_uint n) as [|d|d|d|d|d|d|d|d|d|d]; [contradiction|..];
    cbn [NilEmpty.string_of_uint Decimal.revapp]; do 2 eexists;
    (split; [reflexivity|]); (split; [reflexivity|]);
    cbn [parseDigits]; read_digit; cbv iota; rewrite <- parseDigits_uint;
    reflexivity.
Qed.

Lemma parseInt_digit_first (c : ascii) (r : string) :
  isDigit c = true ->
  parseInt (String c r)
  = match parseDigits 0 false (String c r) with
    | None => NaN
    | Some m => roundInteger (1 * m)
    end.
Proof.
  intros H. destruct c as [[] [] [] [] [] [] [] []];
    vm_compute in H; try discriminate H; reflexivity.
Qed.

Lemma parseInt_decimalOf (n : N) : parseInt (decimalOf n) = roundInteger (Z.of_N n).
Proof.
  destruct (decimalOf_first n) as (c & r & -> & Hc & Hp).
  rewrite (parseInt_digit_first c r Hc), Hp. f_equal. lia.
Qed.

(** X10. Reading back a written price: a price text that, once every [$]
    and [.] is dropped and the blanks around it are ignored, is the decimal
    numeral of a natural number parses to the number for it, so currency
    signs and thousands separators never change the value read. Below 2^53
    that number is the natural number itself; from 2^1024 on it is
    Infinity. Below 2^52 the reference price is the natural number, doubled
    under the accessory predicate. *)
Theorem price_text_roundtrip (s : string) (n : N) :
  trim (dropPriceMarks s) = decimalOf n ->
  parsePriceString (Str s) = roundInteger (Z.of_N n)
  /\ (Z.of_N n < 2 ^ 53 -> parsePriceString (Str s) = Fin (Z.of_N n))
  /\ (2 ^ 1024 <= Z.of_N n -> parsePriceString (Str s) = Inf false)
  /\ (forall (accessory : Product -> bool) (p : Product),
         precio3 p = Some s -> Z.of_N n < 2 ^ 52 ->
         getReferencePrice accessory p
         = Fin (if accessory p then 2 * Z.of_N n else Z.of_N n)).
Proof.
  intros H.
  assert (E : parsePriceString (Str s) = roundInteger (Z.of_N n)).
  { destruct s as [|a s].
    - destruct (decimalOf_first n) as (c & r & Hd & _). rewrite Hd in H. discriminate H.
    - unfold parsePriceString. cbn [truthy toString String.eqb negb].
      rewrite removeChar_dropPriceMarks, H, parseInt_decimalOf. cbv zeta.
      now rewrite isNaN_roundInteger. }
  split; [exact E|]. split; [|split].
  - intros Hn. rewrite E. apply roundInteger_small. lia.
  - intros Hn. rewrite E. now apply roundInteger_huge.
  - intros accessory p Hp Hn. unfold getReferencePrice. rewrite Hp. cbn [ofField].
    assert (H52 : 2 ^ 52 < 2 ^ 53) by (apply Z.pow_lt_mono_r; lia).
    rewrite E, roundInteger_small by lia.
    destruct (accessory p); [|reflexivity].
    cbn [mul]. rewrite roundInteger_small; [f_equal; lia|].
    replace (2 ^ 53) with (2 * 2 ^ 52) by reflexivity. lia.
Qed.

Lemma price_text_roundtrip_witness :
  parsePriceString (Str (String nbsp "$1.234.567 ")) = Fin 1234567.
Proof.
  destruct (price_text_roundtrip (String nbsp "$1.234.567 ") 1234567%N) as (_ & H & _).
  - vm_compute. reflexivity.
  - apply H. vm_compute. reflexivity.
Defined.

(** X11. The parser returns a number unchanged, and turns everything else
    into a number that is not NaN: a finite integer, or an infinity when
    the digits go beyond what a number holds. Its result is NaN only when
    it is handed NaN itself, and an absent, null or empty price reads
    as 0. *)
Theorem parse_price_total (v : value) :
  (forall n, parsePriceString (Number n) = n)
  /\ ((forall n, v <> Number n) -> bounded (parsePriceString v))
  /\ (isNaN (parsePriceString v) = true <-> v = Number NaN)
  /\ (parsePriceString Undefined = Fin 0 /\ parsePriceString Null = Fin 0
      /\ parsePriceString (Str "") = Fin 0).
Proof.
  assert (B0 : bounded (Fin 0)).
  { cbn [bounded]. change (Z.abs 0) with 0. apply Z.pow_pos_nonneg; lia. }
  assert (P : forall s,
               bounded (let parsed := parseInt s in if isNaN parsed then Fin 0 else parsed)).
  { intros s. unfold parseInt.
    destruct (match trimStart s with
              | String "-"%char r => (-1, r)
              | String "+"%char r => (1, r)
              | _ => (1, trimStart s)
              end) as [sign body].
    cbv zeta. destruct (parseDigits 0 false body) as [m|]; cbn [isNaN]; [|exact B0].
    rewrite isNaN_roundInteger. apply roundInteger_bounded. }
  assert (F : (forall n, v <> Number n) -> bounded (parsePriceString v)).
  { intros Hv. unfold parsePriceString. destruct v as [| |b|n|s].
    - exact B0.
    - exact B0.
    - destruct b; cbn [truthy negb]; [apply P | exact B0].
    - now contradiction (Hv n).
    - cbn [truthy]. destruct (negb (negb (s =? "")%string)); [exact B0 | apply P]. }
  split; [reflexivity|]. split; [exact F|]. split; [|repeat split].
  split.
  - intros H. destruct v as [| |b|n|s].
    1-3, 5: exfalso;
      match goal with
      | |- _ => assert (Hb : bounded (parsePriceString _)) by (apply F; intros n; discriminate);
                destruct (parsePriceString _); [contradiction | discriminate H..]
      end.
    cbn [parsePriceString] in H. destruct n; [reflexivity | discriminate H..].
  - intros ->. reflexivity.
Qed.

Lemma parse_price_total_witness :
  bounded (parsePriceString (Str "consultar precio")).
Proof.
  apply (parse_price_total (Str "consultar precio")). intros n. discriminate.
Defined.

(* ================================================================== *)
(** ** Further properties of the price order *)

Lemma StronglySorted_app {A : Type} (R : A -> A -> Prop) (l1 l2 : list A) :
  StronglySorted R l1 -> StronglySorted R l2 ->
  (forall a b, In a l1 -> In b l2 -> R a b) ->
  StronglySorted R (l1 ++ l2).
Proof.
  intros H1 H2 H. induction H1 as [|x l1 Hs IH Hall]; cbn [app]; [exact H2|].
  constructor.
  - apply IH. intros a b Ha Hb. apply H; [now right | exact Hb].
  - apply Forall_app. split; [exact Hall|].
    apply Forall_forall. intros b Hb. apply H; [now left | exact Hb].
Qed.

Lemma StronglySorted_rev {A : Type} (R : A -> A -> Prop) (l : list A) :
  StronglySorted R l -> StronglySorted (fun a b => R b a) (rev l).
Proof.
  induction 1 as [|x l Hs IH Hall]; cbn [rev]; [constructor|].
  apply StronglySorted_app; [exact IH | repeat constructor|].
  intros a b Ha [<- | []]. rewrite Forall_forall in Hall.
  apply Hall. now apply in_rev.
Qed.

Lemma StronglySorted_impl {A : Type} (R R' : A -> A -> Prop) (l : list A) :
  (forall a b, R a b -> R' a b) -> StronglySorted R l -> StronglySorted R' l.
Proof.
  intros H. induction 1 as [|x l Hs IH Hall]; constructor; [exact IH|].
  eapply Forall_impl; [|exact Hall]. intros b. apply H.
Qed.

Lemma filter_rev_comm {A : Type} (f : A -> bool) (l : list A) :
  filter f (rev l) = rev (filter f l).
Proof.
  induction l as [|x l IH]; cbn [rev filter]; [reflexivity|].
  rewrite filter_app, IH. cbn [filter]. destruct (f x); cbn [rev]; [reflexivity|].
  apply app_nil_r.
Qed.

Lemma filter_key_unique {A : Type} (key : A -> Z) (k : Z) (l : list A) :
  NoDup (map key l) ->
  rev (filter (fun a => key a =? k) l) = filter (fun a => key a =? k) l.
Proof.
  intros Hnd.
  assert (H : (List.length (filter (fun a => (key a =? k)%Z) l) <= 1)%nat).
  { induction l as [|x l IH]; cbn [filter]; [auto|].
    cbn [map] in Hnd. inversion Hnd as [|? ? Hx Hl]; subst.
    destruct (key x =? k) eqn:E; [|auto].
    apply Z.eqb_eq in E. cbn [List.length].
    assert (G : filter (fun a => key a =? k) l = []).
    { destruct (filter (fun a => key a =? k) l) as [|y r] eqn:Ef; [reflexivity|].
      exfalso. apply Hx.
      assert (Hy : In y (filter (fun a => key a =? k) l)) by (rewrite Ef; now left).
      apply filter_In in Hy. destruct Hy as [Hy Hk]. apply Z.eqb_eq in Hk.
      rewrite E, <- Hk. now apply in_map. }
    rewrite G. auto. }
  destruct (filter (fun a => key a =? k) l) as [|x [|y r]]; try reflexivity.
  cbn [List.length] in H. lia.
Qed.

Lemma price_filter_neg (accessory : Product -> bool) (k : Z) (l : list Product) :
  filter (fun a => - priceRank accessory a =? k) l
  = filter (fun a => priceRank accessory a =? - k) l.
Proof.
  apply filter_ext. intros a.
  destruct (Z.eqb_spec (- priceRank accessory a) k),
    (Z.eqb_spec (priceRank accessory a) (- k)); try reflexivity; lia.
Qed.

(** X12. A price order forgets the order it starts from, ties apart:
    sorting an already sorted result again, in either direction, gives what
    sorting the original candidates in that direction gives. *)
Theorem resort_forgets_previous_order (accessory : Product -> bool) (st : FilterState)
    (first second : PriceSortOrder) (l : list Product) :
  second <> SortDefault ->
  priceStage accessory (setPriceSort second st)
    (priceStage accessory (setPriceSort first st) l)
  = priceStage accessory (setPriceSort second st) l.
Proof.
  intros Hs. unfold priceStage. cbn [setPriceSort priceSort].
  pose proof (comparePrice_asc accessory) as Hasc.
  pose proof (comparePrice_desc accessory) as Hdesc.
  destruct second; [contradiction | |]; destruct first; try reflexivity.
  - apply (sort_idempotent _ _ Hasc).
  - apply (stable_sort_unique _ _ Hasc); [apply (sort_sorted _ _ Hasc)|].
    intros k. rewrite (sort_same_key _ _ Hasc).
    rewrite <- (Z.opp_involutive k), <- !price_filter_neg.
    apply (sort_same_key _ _ Hdesc).
  - apply (stable_sort_unique _ _ Hdesc); [apply (sort_sorted _ _ Hdesc)|].
    intros k. rewrite (sort_same_key _ _ Hdesc).
    rewrite !price_filter_neg. apply (sort_same_key _ _ Hasc).
  - apply (sort_idempotent _ _ Hdesc).
Qed.

Lemma resort_forgets_previous_order_witness :
  priceStage accessoriesOnly (setPriceSort SortDesc scenarioState)
    (priceStage accessoriesOnly (setPriceSort SortAsc scenarioState)
       [productA1; productB2; productReturned])
  = priceStage accessoriesOnly (setPriceSort SortDesc scenarioState)
      [productA1; productB2; productReturned].
Proof.
  apply (resort_forgets_previous_order accessoriesOnly scenarioState SortAsc SortDesc).
  discriminate.
Defined.

(** X13. When no two candidates have the same reference price, the
    descending order is the ascending order read backwards. *)
Theorem descending_is_reverse_ascending (accessory : Product -> bool) (st : FilterState)
    (l : list Product) :
  NoDup (map (getReferencePrice accessory) l) ->
  priceStage accessory (setPriceSort SortDesc st) l
  = rev (priceStage accessory (setPriceSort SortAsc st) l).
Proof.
  intros Hnd. unfold priceStage. cbn [setPriceSort priceSort].
  pose proof (comparePrice_asc accessory) as Hasc.
  pose proof (comparePrice_desc accessory) as Hdesc.
  assert (Hk : NoDup (map (priceRank accessory) l)).
  { clear -Hnd. induction l as [|x l IH]; cbn [map] in *; [constructor|].
    inversion Hnd as [|? ? Hx Hl]; subst. constructor; [|now apply IH].
    intros Hin. apply Hx. apply in_map_iff in Hin. destruct Hin as [y [E Hy]].
    apply priceRank_eq in E. rewrite <- E. now apply in_map. }
  symmetry. apply (stable_sort_unique _ _ Hdesc).
  - apply (StronglySorted_impl (fun a b => keyLe (priceRank accessory) b a)).
    + intros a b. unfold keyLe. lia.
    + apply StronglySorted_rev, (sort_sorted _ _ Hasc).
  - intros k. rewrite filter_rev_comm, !price_filter_neg, (sort_same_key _ _ Hasc).
    now apply filter_key_unique.
Qed.

Lemma descending_is_reverse_ascending_witness :
  priceStage accessoriesOnly (setPriceSort SortDesc scenarioState) scenarioProducts
  = rev (priceStage accessoriesOnly (setPriceSort SortAsc scenarioState) scenarioProducts).
Proof.
  apply (descending_is_reverse_ascending accessoriesOnly scenarioState scenarioProducts).
  vm_compute. repeat constructor; cbn [In]; intuition discriminate.
Defined.

(* ================================================================== *)
(** ** Further properties of the facets and of the handlers *)


Lemma availableBrands_In (l : list Product) (st : FilterState) (b : option string) :
  In b (tl (availableBrands l st))
  <-> exists p, In p l /\ validSku p = true /\ marca p = b /\ fieldTruthy b = true
                /\ ((selectedCategory st =? Todos)%string = true
                    \/ fieldIs (categoria p) (selectedCategory st) = true).
Proof.
  unfold availableBrands.
  destruct (selectedCategory st =? Todos)%string; cbn [negb tl];
    rewrite (newSet_firstSeen _ fieldEqb_eq), (firstSeen_In _ fieldEqb_eq),
      filter_In, in_map_iff.
  - split.
    + intros [[p [E Hp]] Ht]. apply filter_In in Hp. exists p. tauto.
    + intros [p (Hp & Hv & E & Ht & _)]. split; [|exact Ht].
      exists p. split; [exact E|]. apply filter_In. tauto.
  - split.
    + intros [[p [E Hp]] Ht]. apply filter_In in Hp. destruct Hp as [Hp Hc].
      apply andb_true_iff in Hc. exists p. tauto.
    + intros [p (Hp & Hv & E & Ht & [Hc | Hc])]; [discriminate|].
      split; [|exact Ht]. exists p. split; [exact E|].
      apply filter_In. split; [exact Hp|]. now rewrite Hc, Hv.
Qed.

(** X14. Selecting a category can only narrow the brand list: every brand
    offered under a category is also offered under the sentinel. *)
Theorem brand_scope_narrows (l : list Product) (st : FilterState) (b : option string) :
  In b (availableBrands l st) ->
  In b (availableBrands l (setSelectedCategory Todos st)).
Proof.
  assert (Hhd : forall st', availableBrands l st' = Some Todos :: tl (availableBrands l st')).
  { intros st'. unfold availableBrands.
    destruct (negb (selectedCategory st' =? Todos)%string); reflexivity. }
  rewrite (Hhd st), (Hhd (setSelectedCategory Todos st)).
  intros [H | H]; [now left | right].
  apply availableBrands_In in H. apply availableBrands_In.
  destruct H as [p (Hp & Hv & E & Ht & _)]. exists p.
  repeat split; auto.
Qed.

Lemma brand_scope_narrows_witness :
  In (Some "X")
    (availableBrands scenarioProducts (setSelectedCategory Todos scenarioState)).
Proof.
  apply (brand_scope_narrows scenarioProducts
           (setSelectedCategory "Paletas" scenarioState) (Some "X")).
  right. left. reflexivity.
Defined.



(** X16. A brand offered by the selector is never a dead end once
    out-of-stock products are shown: choosing it, which keeps the category
    and resets the search, leaves at least one product in the result. *)
Theorem offered_brand_not_empty (accessory : Product -> bool) (l : list Product)
    (st : FilterState) (b : string) :
  In (Some b) (tl (availableBrands l st)) ->
  showOutOfStock st = true ->
  filteredProducts accessory l (handle (BrandChange b) st) <> [].
Proof.
  intros Hb Hs. apply availableBrands_In in Hb.
  destruct Hb as [p (Hp & Hv & E & _ & Hc)].
  assert (Hin : In p (filteredProducts accessory l (handle (BrandChange b) st))).
  { apply In_filteredProducts. split; [exact Hp|].
    unfold keeps. cbn [handle setSearchTerm setSelectedBrand
                         searchTerm selectedCategory selectedBrand showOutOfStock].
    rewrite Hv, Hs, E. cbn [fieldIs orb andb].
    rewrite !String.eqb_refl, orb_true_r, !andb_true_r.
    apply orb_true_iff. exact Hc. }
  intros H. rewrite H in Hin. exact Hin.
Qed.

Lemma offered_brand_not_empty_witness :
  filteredProducts accessoriesOnly scenarioProducts
    (handle (BrandChange "Y")
       (setSelectedCategory "Pelotas" (setShowOutOfStock true scenarioState))) <> [].
Proof.
  apply (offered_brand_not_empty accessoriesOnly scenarioProducts
           (setSelectedCategory "Pelotas" (setShowOutOfStock true scenarioState)) "Y").
  - left. reflexivity.
  - reflexivity.
Defined.

(** X17. A click on the logo brings every filter back to its initial
    value, whatever the state was, and the result is then the products with
    a usable SKU and a stock above zero, in the order of the list. *)
Theorem logo_click_resets (accessory : Product -> bool) (l : list Product)
    (st : FilterState) :
  handle LogoClick st = initialState
  /\ filteredProducts accessory l (handle LogoClick st)
     = filter (fun p => validSku p && inStock p) l.
Proof.
  split; [reflexivity|].
  change (handle LogoClick st) with initialState.
  unfold filteredProducts, priceStage. cbn [initialState priceSort].
  rewrite candidates_filter. apply filter_ext. intros p. unfold keeps.
  cbn [initialState showOutOfStock selectedCategory selectedBrand searchTerm orb].
  rewrite !String.eqb_refl. cbn [orb]. now rewrite !andb_true_r.
Qed.

(* ================================================================== *)
(** ** Properties of the loader and of the main area *)

Lemma logo_click_resets_witness :
  filteredProducts accessoriesOnly [productGhost; productB2; productMesa]
    (handle LogoClick (setSearchTerm "mesa" (setShowOutOfStock true scenarioState)))
  = [productMesa].
Proof.
  destruct (logo_click_resets accessoriesOnly [productGhost; productB2; productMesa]
              (setSearchTerm "mesa" (setShowOutOfStock true scenarioState))) as [_ H].
  rewrite H. vm_compute. reflexivity.
Defined.

Lemma normalizeProducts_normal (productsData : list Product) :
  Forall StockNormal (normalizeProducts productsData).
Proof.
  unfold normalizeProducts. apply Forall_forall. intros p Hp.
  apply in_map_iff in Hp. destruct Hp as [q [<- _]].
  unfold StockNormal. cbn [normalizeProduct stock]. unfold normalizeStock.
  destruct (stock q) as [| |b|n|s]; try (now exists (Fin 0)).
  destruct n; cbn [isNaN negb]; [now exists (Fin 0) | now eexists | now eexists].
Qed.

Lemma loadStep_normal (e : LoadEvent) (pg : PageState) :
  Forall StockNormal (products pg) -> Forall StockNormal (products (loadStep e pg)).
Proof.
  intros H. destruct e as [bg | bg productsData | bg |]; cbn [loadStep].
  - destruct (negb bg); exact H.
  - destruct (negb (cancelled pg)); [|exact H].
    destruct (negb bg); apply normalizeProducts_normal.
  - destruct (negb (cancelled pg) && negb bg); exact H.
  - exact H.
Qed.

(** X18. Whatever loads start, succeed, fail or are cancelled, and in
    whatever order, the products held by the page always have a stock that
    is a number other than NaN; normalising them again would change
    nothing. *)
Theorem loaded_products_normalized (es : list LoadEvent) :
  Forall StockNormal (products (loadRun es initialPage))
  /\ normalizeProducts (products (loadRun es initialPage))
     = products (loadRun es initialPage).
Proof.
  assert (H : forall pg, Forall StockNormal (products pg) ->
                         Forall StockNormal (products (loadRun es pg))).
  { unfold loadRun. induction es as [|e es IH]; intros pg Hpg; cbn [fold_left].
    - exact Hpg.
    - apply IH, loadStep_normal, Hpg. }
  assert (G : Forall StockNormal (products (loadRun es initialPage)))
    by (apply H; constructor).
  split; [exact G|].
  induction G as [|p l Hp Hl IH]; cbn [normalizeProducts map]; [reflexivity|].
  f_equal; [now apply normalizeProduct_fixed | exact IH].
Qed.

(** X19. Once the effect has been cleaned up the products never change
    again, whatever load events follow, and a load that completes after the
    cleanup, with or without success, changes nothing at all. *)
Theorem cancelled_load_inert (es : list LoadEvent) (pg : PageState) :
  cancelled pg = true ->
  products (loadRun es pg) = products pg
  /\ cancelled (loadRun es pg) = true
  /\ (forall isBackgroundRefresh productsData,
         loadStep (LoadResolved isBackgroundRefresh productsData) pg = pg)
  /\ (forall isBackgroundRefresh, loadStep (LoadRejected isBackgroundRefresh) pg = pg).
Proof.
  intros Hc. split; [|split; [|split]].
  - revert pg Hc. unfold loadRun.
    induction es as [|e es IH]; intros pg Hc; cbn [fold_left]; [reflexivity|].
    rewrite IH.
    + destruct e as [bg | bg productsData | bg |]; cbn [loadStep]; rewrite ?Hc;
        cbn [negb andb]; try reflexivity. now destruct (negb bg).
    + destruct e as [bg | bg productsData | bg |]; cbn [loadStep]; rewrite ?Hc;
        cbn [negb andb]; try exact Hc; try reflexivity. now destruct (negb bg).
  - revert pg Hc. unfold loadRun.
    induction es as [|e es IH]; intros pg Hc; cbn [fold_left]; [exact Hc|].
    apply IH.
    destruct e as [bg | bg productsData | bg |]; cbn [loadStep]; rewrite ?Hc;
      cbn [negb andb]; try exact Hc; try reflexivity. now destruct (negb bg).
  - intros bg productsData. cbn [loadStep]. now rewrite Hc.
  - intros bg. cbn [loadStep]. now rewrite Hc.
Qed.

Lemma cancelled_load_inert_witness :
  products (loadRun [LoadResolved false scenarioProducts]
              (loadStep Cleanup (loadStep (LoadBegin false) initialPage)))
  = [].
Proof.
  apply (cancelled_load_inert [LoadResolved false scenarioProducts]
           (loadStep Cleanup (loadStep (LoadBegin false) initialPage))).
  reflexivity.
Defined.

(** A load event of a background refresh, or the cleanup. *)
Lemma loadStep_background (e : LoadEvent) (pg : PageState) :
  match e with
  | LoadBegin bg | LoadResolved bg _ | LoadRejected bg => bg = true
  | Cleanup => True
  end ->
  loading (loadStep e pg) = loading pg.
Proof.
  destruct e as [bg | bg productsData | bg |]; cbn [loadStep]; intros H; subst;
    cbn [negb andb]; try reflexivity.
  - now destruct (negb (cancelled pg)).
  - now rewrite andb_false_r.
Qed.

(** X20. Background refreshes never touch the loading flag: after any run
    of background load events and cleanups the flag is what it was, so a
    refresh cannot bring the spinner back or take it away. *)
Theorem background_refresh_keeps_loading (es : list LoadEvent) (pg : PageState) :
  Forall (fun e => match e with
                   | LoadBegin bg | LoadResolved bg _ | LoadRejected bg => bg = true
                   | Cleanup => True
                   end) es ->
  loading (loadRun es pg) = loading pg.
Proof.
  intros H. revert pg. unfold loadRun.
  induction H as [|e es He Hes IH]; intros pg; cbn [fold_left]; [reflexivity|].
  rewrite IH. now apply loadStep_background.
Qed.

Lemma background_refresh_keeps_loading_witness :
  loading (loadRun [LoadBegin true; LoadRejected true; LoadBegin true;
                    LoadResolved true scenarioProducts]
             (loadRun [LoadBegin false; LoadResolved false []] initialPage))
  = false.
Proof.
  apply (background_refresh_keeps_loading
           [LoadBegin true; LoadRejected true; LoadBegin true;
            LoadResolved true scenarioProducts]
           (loadRun [LoadBegin false; LoadResolved false []] initialPage)).
  repeat constructor.
Defined.

Lemma productCards_product (index : nat) (shown : bool) (l : list Product) :
  map cardProduct (productCards index shown l) = l.
Proof.
  revert index. induction l as [|p l IH]; intros index; cbn [productCards map];
    [reflexivity | now rewrite IH].
Qed.

Lemma productCards_priority (index : nat) (shown : bool) (l : list Product) :
  map priorityImage (productCards index shown l)
  = repeat true (Nat.min (6 - index) (List.length l))
    ++ repeat false (List.length l - (6 - index)).
Proof.
  revert index. induction l as [|p l IH]; intros index;
    cbn [productCards map List.length cardProduct priorityImage].
  - rewrite Nat.min_0_r. reflexivity.
  - rewrite IH. destruct (Nat.ltb_spec index 6) as [Hlt | Hge].
    + replace (6 - index)%nat with (S (6 - S index)) by lia.
      cbn [Nat.min repeat Nat.sub app]. reflexivity.
    + replace (6 - index)%nat with 0%nat by lia.
      replace (6 - S index)%nat with 0%nat by lia.
      cbn [Nat.min repeat app]. rewrite !Nat.sub_0_r. reflexivity.
Qed.

(** X21. The main area shows the spinner exactly while loading, the "no
    products" message exactly when loading is over and the result is empty,
    and otherwise one card per product of the result, in the order of the
    result, each with the current out-of-stock flag; the first six cards,
    and only those, are given priority for their image. *)
Theorem main_view_spec (isLoading shown : bool) (filtered : list Product) :
  (mainView isLoading shown filtered = Spinner <-> isLoading = true)
  /\ (mainView isLoading shown filtered = NoProductsFound
      <-> isLoading = false /\ filtered = [])
  /\ (forall cards,
         mainView isLoading shown filtered = ProductGrid cards ->
         isLoading = false
         /\ filtered <> []
         /\ map cardProduct cards = filtered
         /\ Forall (fun card => cardShowOutOfStock card = shown) cards
         /\ map priorityImage cards
            = repeat true (Nat.min 6 (List.length filtered))
              ++ repeat false (List.length filtered - 6)).
Proof.
  unfold mainView. destruct isLoading; cbv iota.
  - split; [split; reflexivity|].
    split; [split; [discriminate | intros [H _]; discriminate]|].
    intros cards H. discriminate.
  - destruct filtered as [|p l]; cbn [List.length Nat.eqb]; cbv iota.
    + split; [split; discriminate|].
      split; [split; [intros _; split; reflexivity | reflexivity]|].
      intros cards H. discriminate.
    + split; [split; discriminate|].
      split; [split; [discriminate | intros [_ H]; discriminate]|].
      intros cards [= <-]. split; [reflexivity|]. split; [discriminate|].
      split; [apply (productCards_product 0 shown (p :: l))|]. split.
      * change (Forall (fun card => cardShowOutOfStock card = shown)
                  (productCards 0 shown (p :: l))).
        generalize 0%nat. generalize (p :: l). intros l'.
        induction l' as [|q l' IH]; intros index; cbn [productCards]; constructor;
          [reflexivity | apply IH].
      * apply (productCards_priority 0 shown (p :: l)).
Qed.

Lemma main_view_spec_witness :
  map priorityImage (productCards 0 false scenarioProducts) = [true; true; true].
Proof.
  apply (main_view_spec false false scenarioProducts). reflexivity.
Defined.

(** X22. Whatever has been loaded so far, every card of the page shows a
    product of the current snapshot whose stock is a number other than NaN
    and whose SKU is usable, and whose stock is above zero when out-of-stock
    products are hidden. *)
Theorem page_cards_sound (accessory : Product -> bool) (es : list LoadEvent)
    (st : FilterState) (cards : list Card) (card : Card) :
  pageView accessory (loadRun es initialPage) st = ProductGrid cards ->
  In card cards ->
  In (cardProduct card) (products (loadRun es initialPage))
  /\ StockNormal (cardProduct card)
  /\ SkuUsable (cardProduct card)
  /\ (showOutOfStock st = false -> StockPositive (cardProduct card)).
Proof.
  unfold pageView, mainView. intros Hv Hin.
  set (pg := loadRun es initialPage) in *.
  destruct (loading pg); [discriminate|].
  destruct (List.length (filteredProducts accessory (products pg) st) =? 0)%nat;
    [discriminate|].
  injection Hv as <-.
  assert (Hp : In (cardProduct card) (filteredProducts accessory (products pg) st)).
  { rewrite <- (productCards_product 0 (showOutOfStock st)). now apply in_map. }
  apply In_filteredProducts in Hp. destruct Hp as [Hp Hk].
  apply keeps_spec in Hk. destruct Hk as (Hsku & Hstock & _).
  split; [exact Hp|]. split; [|split; assumption].
  assert (Hall : Forall StockNormal (products pg)).
  { subst pg. clear. unfold loadRun.
    assert (H : forall pg, Forall StockNormal (products pg) ->
                Forall StockNormal (products (fold_left (fun s e => loadStep e s) es pg))).
    { induction es as [|e es IH]; intros pg Hpg; cbn [fold_left];
        [exact Hpg | apply IH, loadStep_normal, Hpg]. }
    apply H. constructor. }
  rewrite Forall_forall in Hall. now apply Hall.
Qed.

Lemma page_cards_sound_witness :
  StockPositive productA1.
Proof.
  apply (page_cards_sound accessoriesOnly
           [LoadBegin false; LoadResolved false scenarioProducts] scenarioState
           (productCards 0 false [productA1])
           {| cardKey := None; cardProduct := productA1; cardImages := [];
              cardShowOutOfStock := false; priorityImage := true |}).
  - reflexivity.
  - left. reflexivity.
  - reflexivity.
Defined.

Lemma NoDup_map_filter {A B : Type} (g : A -> B) (f : A -> bool) (l : list A) :
  NoDup (map g l) -> NoDup (map g (filter f l)).
Proof.
  induction l as [|x l IH]; cbn [map filter]; [auto|].
  intros H. inversion H as [|? ? Hx Hl]; subst.
  destruct (f x); cbn [map]; [|auto].
  constructor; [|auto]. intros Hin. apply Hx.
  apply in_map_iff in Hin. destruct Hin as [y [E Hy]].
  apply filter_In in Hy. rewrite <- E. apply in_map. tauto.
Qed.

(** X23. When the identifiers of the loaded products are pairwise
    different, so are the identifiers of the filtered result, and with them
    the keys of the cards of the grid. *)
Theorem card_keys_unique (accessory : Product -> bool) (l : list Product)
    (st : FilterState) :
  NoDup (map id l) ->
  NoDup (map id (filteredProducts accessory l st))
  /\ (forall index,
         NoDup (map cardKey
                  (productCards index (showOutOfStock st)
                     (filteredProducts accessory l st)))).
Proof.
  intros H.
  assert (G : NoDup (map id (filteredProducts accessory l st))).
  { unfold filteredProducts.
    apply (Permutation_NoDup
             (Permutation_map id (Permutation_sym (priceStage_perm accessory st _)))).
    rewrite candidates_filter. now apply NoDup_map_filter. }
  split; [exact G|].
  intros index.
  assert (E : forall r i, map cardKey (productCards i (showOutOfStock st) r) = map id r).
  { induction r as [|p r IH]; intros i; cbn [productCards map cardKey];
      [reflexivity | now rewrite IH]. }
  now rewrite E.
Qed.

Lemma card_keys_unique_witness :
  NoDup (map id (filteredProducts accessoriesOnly
                   [productMesa; productGhost; productRed; productGrand]
                   (setPriceSort SortAsc initialState)))
  /\ List.length (filteredProducts accessoriesOnly
                    [productMesa; productGhost; productRed; productGrand]
                    (setPriceSort SortAsc initialState)) = 3%nat.
Proof.
  split; [|vm_compute; reflexivity].
  destruct (card_keys_unique accessoriesOnly
              [productMesa; productGhost; productRed; productGrand]
              (setPriceSort SortAsc initialState)) as [H _]; [|exact H].
  repeat constructor; cbn [map id productMesa productGhost productRed productGrand In];
    intuition discriminate.
Defined.
